(** * Knowledge graph from PDFs: a shallow embedding of [app.py]

    The program reads a PDF, runs a named-entity recogniser over its text,
    sorts the entities into three Python sets (authors, organizations,
    citations), builds an undirected [networkx] graph that links every author
    to every organization and citation, renders it through a temporary HTML
    file and shows the whole on a Streamlit page.

    Python sets of strings are [gset string]; Python dicts are [gmap]s; a
    [for] loop over a set is a left fold over its [elements].  The libraries
    the script calls (spaCy, PyMuPDF, pyvis) are section variables; the
    [networkx.Graph] methods it calls are embedded from their definition. *)

From stdpp Require Import gmap strings list fin_maps fin_sets.

Local Open Scope string_scope.
#[local] Set Warnings "-clear-no-such-hyp".

(** ** [networkx.Graph] *)

Module nx.

(** An attribute dictionary (keyword arguments of [add_node]). *)
Abbreviation attrs := (gmap string string).

(** [Graph._node] maps a node to its attribute dict; [Graph._adj] maps a
    node to the dict of its neighbours, each with the edge's data dict. *)
Record Graph : Type := mkGraph {
  _node : gmap string attrs;
  _adj : gmap string (gmap string attrs)
}.

(** [nx.Graph()] *)
Definition empty : Graph := {| _node := ∅; _adj := ∅ |}.

(** [G.add_node(n, **attr)]: a new node gets an empty adjacency dict and
    the attributes; an existing node has its attribute dict updated. *)
Definition add_node (n : string) (attr : attrs) (G : Graph) : Graph :=
  match _node G !! n with
  | None => {| _node := <[n := attr]> (_node G);
               _adj := <[n := ∅]> (_adj G) |}
  | Some d => {| _node := <[n := attr ∪ d]> (_node G);
                 _adj := _adj G |}
  end.

(** The first half of [add_edge]: an endpoint that is not a node yet is
    added with no attributes. *)
Definition touch (n : string) (G : Graph) : Graph :=
  match _node G !! n with
  | None => {| _node := <[n := ∅]> (_node G);
               _adj := <[n := ∅]> (_adj G) |}
  | Some _ => G
  end.

(** [G.get_edge_data(u, v)]: the data dict of the edge, if there is one. *)
Definition get_edge_data (G : Graph) (u v : string) : option attrs :=
  _adj G !! u ≫= (.!! v).

(** [G.add_edge(u, v)] with no edge attributes: the edge's data dict is
    the one already stored (or a new empty one), and it is written under
    both endpoints.  [_adj[u]] exists after [touch] in every graph whose
    two dicts have the same keys, which [wf] below records. *)
Definition add_edge (u v : string) (G : Graph) : Graph :=
  let G := touch v (touch u G) in
  let datadict := default ∅ (get_edge_data G u v) in
  let adj := alter (insert v datadict) u (_adj G) in
  let adj := alter (insert u datadict) v adj in
  {| _node := _node G; _adj := adj |}.

(** [G.has_edge(u, v)] *)
Definition has_edge (G : Graph) (u v : string) : Prop :=
  is_Some (get_edge_data G u v).

(** [G.has_node(n)], that is [n in G] *)
Definition has_node (G : Graph) (n : string) : Prop :=
  is_Some (_node G !! n).

(** The neighbours of [n] ([G[n]], empty for a string that is no node). *)
Definition neighbors (G : Graph) (n : string) : gset string :=
  dom (default ∅ (_adj G !! n)).

(** [G.degree(n)]: a self-loop counts twice. *)
Definition degree (G : Graph) (n : string) : nat :=
  size (neighbors G n) + (if decide (n ∈ neighbors G n) then 1 else 0).

(** [G.number_of_nodes()] *)
Definition number_of_nodes (G : Graph) : nat := size (_node G).

(** [G.number_of_edges()]: half the sum of the degrees. *)
Definition number_of_edges (G : Graph) : nat :=
  sum_list (degree G <$> elements (dom (_node G))) `div` 2.

(** The attribute [key] of node [n] ([G.nodes[n][key]]). *)
Definition node_attr (G : Graph) (n key : string) : option string :=
  _node G !! n ≫= (.!! key).

(** The two dicts of a graph have the same keys. *)
Definition wf (G : Graph) : Prop := dom (_node G) = dom (_adj G).

End nx.

(** ** [create_knowledge_graph] *)

Definition node_attrs (label color : string) : nx.attrs :=
  <["label" := label]> (<["color" := color]> ∅).

(** The body of [create_knowledge_graph], with the order in which each of
    the three sets is enumerated by its [for] loops. *)
Definition create_knowledge_graph_in
    (authors organizations citations : list string) : nx.Graph :=
  let G := nx.empty in
  let G := foldl (λ G author,
             nx.add_node author (node_attrs "Author" "blue") G)
           G authors in
  let G := foldl (λ G org,
             let G := nx.add_node org (node_attrs "Organization" "red") G in
             foldl (λ G author, nx.add_edge author org G) G authors)
           G organizations in
  let G := foldl (λ G citation,
             let G := nx.add_node citation (node_attrs "Citation" "green") G in
             foldl (λ G author, nx.add_edge author citation G) G authors)
           G citations in
  G.

(** Python enumerates a set in an order of its own; [elements] stands for
    it.  [create_knowledge_graph_order] below shows that the nodes, their
    attributes and the edges are the same for every order. *)
Definition create_knowledge_graph
    (authors organizations citations : gset string) : nx.Graph :=
  create_knowledge_graph_in
    (elements authors) (elements organizations) (elements citations).

(** ** spaCy: the entities of a document *)

Module spacy.

(** One element of [doc.ents]: the text of the span and its label. *)
Record Span : Type := mkSpan { text : string; label_ : string }.

#[global] Instance Span_eq_dec : EqDecision Span.
Proof. solve_decision. Defined.

End spacy.

(** ** Streamlit: what a run puts on the page *)

Module st.

(** What [st.write] is given: a string, or a set of strings. *)
Inductive value : Type :=
| Str (s : string)
| SetOf (s : gset string).

(** Where a call draws: the page itself or one of the columns. *)
Inductive container : Type :=
| page
| column (i : nat).

Inductive call : Type :=
| set_page_config (page_title layout : string)
| title (body : string)
| write (v : value)
| file_uploader (label : string) (type : list string)
| spinner (body : string)
| subheader (body : string)
| columns (n : nat)
| html (code : string) (height : nat).

#[global] Instance value_eq_dec : EqDecision value.
Proof. solve_decision. Defined.
#[global] Instance container_eq_dec : EqDecision container.
Proof. solve_decision. Defined.
#[global] Instance call_eq_dec : EqDecision call.
Proof. solve_decision. Defined.

(** A value that shows nothing to read: the empty string or an empty set. *)
Definition blank (v : value) : Prop :=
  match v with
  | Str s => s = ""
  | SetOf s => s = ∅
  end.

End st.

(** ** The world a run acts on: files and the page, with exceptions *)

Inductive exn : Type :=
| LibraryError (raised_by : string)
| FileNotFoundError (path : string).

(** Calls that reach the file system, in the order they are made. *)
Inductive syscall : Type :=
| sys_create (path : string)
| sys_write (path data : string)
| sys_read (path : string)
| sys_unlink (path : string).

Record World : Type := mkWorld {
  files : gmap string string;
  trace : list syscall;
  screen : list (st.container * st.call)
}.

(** A computation changes the world and returns a value or raises; what it
    did to the world before raising stays done. *)
Definition M (A : Type) : Type := World → World * (exn + A).

#[global] Instance M_ret : MRet M := λ A x w, (w, inr x).
#[global] Instance M_bind : MBind M := λ A B f m w,
  match m w with
  | (w', inl e) => (w', inl e)
  | (w', inr x) => f x w'
  end.

Definition raise {A} (e : exn) : M A := λ w, (w, inl e).

(** A library call that may raise and touches nothing of the world. *)
Definition lift {A} (r : exn + A) : M A := λ w, (w, r).

Definition get_files : M (gmap string string) := λ w, (w, inr (files w)).

Definition syscall_do (c : syscall)
    (f : gmap string string → gmap string string) : M unit :=
  λ w, ({| files := f (files w); trace := trace w ++ [c];
           screen := screen w |}, inr ()).

Definition st_call (where_ : st.container) (c : st.call) : M unit :=
  λ w, ({| files := files w; trace := trace w;
           screen := screen w ++ [(where_, c)] |}, inr ()).

(** [open(path).read()] *)
Definition read_file (path : string) : M string :=
  fs ← get_files;
  match fs !! path with
  | Some data => syscall_do (sys_read path) id;; mret data
  | None => raise (FileNotFoundError path)
  end.

(** [os.unlink(path)] *)
Definition os_unlink (path : string) : M unit :=
  fs ← get_files;
  match fs !! path with
  | Some _ => syscall_do (sys_unlink path) (delete path)
  | None => raise (FileNotFoundError path)
  end.

(** The one-character string Python writes ["\n"]. *)
Definition newline : string := String (Ascii.ascii_of_nat 10) "".

Section app.

(** The spaCy pipeline: the entity spans of a text, in document order. *)
Variable nlp : string → list spacy.Span.

(** PyMuPDF: the text of each page of an uploaded file, or the exception
    [fitz.open] raises. *)
Variable pdf : Type.
Variable fitz_pages : pdf → exn + list string.

(** pyvis: the network built from a graph and the HTML it is saved as;
    either call may raise. *)
Variable Network : Type.
Variable from_nx : nx.Graph → exn + Network.
Variable generate_html : Network → exn + string.

(** [tempfile]: the name chosen for a new temporary file with the given
    suffix, among the files that exist. *)
Variable mkstemp : string → gmap string string → string.

Definition extract_text_from_pdf (pdf_file : pdf) : M string :=
  pages ← lift (fitz_pages pdf_file);
  mret (String.concat newline pages).

Definition extract_entities (text : string)
    : gset string * gset string * gset string :=
  foldl (λ '(authors, organizations, citations) ent,
           if decide (spacy.label_ ent = "PERSON") then
             ({[spacy.text ent]} ∪ authors, organizations, citations)
           else if decide (spacy.label_ ent = "ORG") then
             (authors, {[spacy.text ent]} ∪ organizations, citations)
           else if decide (spacy.label_ ent ∈ ["WORK_OF_ART"; "MISC"]) then
             (authors, organizations, {[spacy.text ent]} ∪ citations)
           else (authors, organizations, citations))
        (∅, ∅, ∅) (nlp text).

(** [tempfile.NamedTemporaryFile(delete=False, suffix=...)]: the file is
    created empty under a new name; leaving the [with] block closes it
    and, with [delete=False], removes nothing. *)
Definition NamedTemporaryFile (suffix : string) : M string :=
  fs ← get_files;
  let name := mkstemp suffix fs in
  syscall_do (sys_create name) (insert name "");;
  mret name.

(** [net.save_graph(name)] *)
Definition save_graph (net : Network) (name : string) : M unit :=
  code ← lift (generate_html net);
  syscall_do (sys_write name code) (insert name code).

Definition render_graph (G : nx.Graph) : M string :=
  net ← lift (from_nx G);
  tmpfile ← NamedTemporaryFile ".html";
  save_graph net tmpfile;;
  html_code ← read_file tmpfile;
  os_unlink tmpfile;;
  mret html_code.

(** [x if x else msg] on a set: the empty set is false. *)
Definition or_else (s : gset string) (msg : string) : st.value :=
  if decide (s = ∅) then st.Str msg else st.SetOf s.

(** [main], given what the upload control returns. *)
Definition main (uploaded_file : option pdf) : M unit :=
  st_call st.page (st.set_page_config "Knowledge Graph from PDFs" "wide");;
  st_call st.page (st.title "📄 Technical Paper Knowledge Graph");;
  st_call st.page (st.write (st.Str "Upload a technical paper in PDF format, and we will extract key entities and visualize their relationships."));;
  st_call st.page (st.file_uploader "Upload PDF" ["pdf"]);;
  match uploaded_file with
  | None => mret ()
  | Some uploaded_file =>
      st_call st.page (st.spinner "Extracting text from PDF...");;
      text ← extract_text_from_pdf uploaded_file;
      let '(authors, organizations, citations) := extract_entities text in
      st_call st.page (st.subheader "Extracted Entities");;
      st_call st.page (st.columns 3);;
      st_call (st.column 1) (st.write (st.Str "### Authors"));;
      st_call (st.column 1)
              (st.write (or_else authors "No authors found"));;
      st_call (st.column 2) (st.write (st.Str "### Organizations"));;
      st_call (st.column 2)
              (st.write (or_else organizations "No organizations found"));;
      st_call (st.column 3) (st.write (st.Str "### Citations"));;
      st_call (st.column 3)
              (st.write (or_else citations "No citations found"));;
      st_call st.page (st.subheader "📊 Knowledge Graph");;
      let G := create_knowledge_graph authors organizations citations in
      graph_html ← render_graph G;
      st_call st.page (st.html graph_html 600)
  end.

End app.

(** ** What is observed of a run *)

(** How many times a string occurs when a set is enumerated. *)
Definition occurrences (t : string) (l : list string) : nat :=
  length (filter (t =.) l).

(** The calls drawn in column [i], in order. *)
Definition column_calls (i : nat) (scr : list (st.container * st.call))
    : list st.call :=
  (filter (λ e, e.1 = st.column i) scr).*2.


(** * Facts *)

(** ** The graph operations *)

Section nx_facts.
Import nx.
Implicit Types (G : Graph) (n u v x y : string) (attr : attrs).

Lemma wf_empty : wf empty.
Proof. unfold wf, empty; simpl. by rewrite !dom_empty_L. Qed.

Lemma wf_adj_None G n : wf G → _node G !! n = None → _adj G !! n = None.
Proof.
  intros Hwf Hn. apply not_elem_of_dom. rewrite <- Hwf.
  by apply not_elem_of_dom.
Qed.

Lemma wf_adj_Some G n : wf G → has_node G n → is_Some (_adj G !! n).
Proof.
  intros Hwf Hn. apply elem_of_dom. rewrite <- Hwf. by apply elem_of_dom.
Qed.

Lemma has_edge_neighbors G u v : v ∈ neighbors G u ↔ has_edge G u v.
Proof.
  unfold neighbors, has_edge, get_edge_data. rewrite elem_of_dom.
  destruct (_adj G !! u) as [nbrs|]; simpl; [done|].
  rewrite lookup_empty. split; intros []; discriminate.
Qed.

(** *** [add_node] *)

Lemma add_node_wf n attr G : wf G → wf (add_node n attr G).
Proof.
  unfold wf, add_node. intros Hwf.
  destruct (_node G !! n) as [d|] eqn:Hn; simpl.
  - rewrite dom_insert_L, <- Hwf. apply elem_of_dom_2 in Hn.
    apply subseteq_union_1_L. by apply singleton_subseteq_l.
  - rewrite !dom_insert_L. by rewrite Hwf.
Qed.

Lemma add_node_lookup n attr G x :
  _node (add_node n attr G) !! x =
  if decide (x = n) then Some (attr ∪ default ∅ (_node G !! n))
  else _node G !! x.
Proof.
  unfold add_node.
  destruct (_node G !! n) as [d|] eqn:Hn; simpl; rewrite lookup_insert;
    repeat case_decide; try congruence.
  by rewrite (right_id_L ∅ (∪)).
Qed.

Lemma add_node_edge_data n attr G u v :
  wf G → get_edge_data (add_node n attr G) u v = get_edge_data G u v.
Proof.
  intros Hwf. unfold get_edge_data, add_node.
  destruct (_node G !! n) as [d|] eqn:Hn; simpl; [done|].
  rewrite lookup_insert. case_decide as Hu; [subst u|done].
  by rewrite (wf_adj_None G n Hwf Hn).
Qed.

(** *** [add_edge] *)

Lemma touch_wf n G : wf G → wf (touch n G).
Proof.
  unfold wf, touch. intros Hwf.
  destruct (_node G !! n); simpl; [done|].
  rewrite !dom_insert_L. by rewrite Hwf.
Qed.

Lemma touch_has_node n G : has_node (touch n G) n.
Proof.
  unfold has_node, touch.
  destruct (_node G !! n) eqn:Hn; simpl; [by rewrite Hn|].
  rewrite lookup_insert_eq. eauto.
Qed.

Lemma touch_id n G : has_node G n → touch n G = G.
Proof. unfold has_node, touch. by intros [d ->]. Qed.

Lemma touch_mono n G x : has_node G x → has_node (touch n G) x.
Proof.
  unfold has_node, touch. intros Hx.
  destruct (_node G !! n) eqn:Hn; simpl; [done|].
  rewrite lookup_insert. case_decide; eauto.
Qed.

Lemma touch_edge_data n G u v :
  wf G → get_edge_data (touch n G) u v = get_edge_data G u v.
Proof.
  intros Hwf. unfold get_edge_data, touch.
  destruct (_node G !! n) as [d|] eqn:Hn; simpl; [done|].
  rewrite lookup_insert. case_decide as Hu; [subst u|done].
  by rewrite (wf_adj_None G n Hwf Hn).
Qed.

Lemma add_edge_wf x y G : wf G → wf (add_edge x y G).
Proof.
  intros Hwf. unfold add_edge.
  pose proof (touch_wf y _ (touch_wf x _ Hwf)) as Hwf2.
  unfold wf in *; simpl. by rewrite !dom_alter_L.
Qed.

Lemma add_edge_node x y G :
  has_node G x → has_node G y → _node (add_edge x y G) = _node G.
Proof.
  intros Hx Hy. unfold add_edge; simpl.
  rewrite (touch_id x) by done. by rewrite (touch_id y).
Qed.

Lemma add_edge_has_edge x y G u v :
  wf G →
  has_edge (add_edge x y G) u v ↔
  has_edge G u v ∨ (u = x ∧ v = y) ∨ (u = y ∧ v = x).
Proof.
  intros Hwf. unfold add_edge.
  set (G2 := touch y (touch x G)).
  assert (wf G2) as Hwf2 by (apply touch_wf, touch_wf, Hwf).
  assert (is_Some (_adj G2 !! x)) as [ax Hax].
  { apply wf_adj_Some; [done|]. apply touch_mono, touch_has_node. }
  assert (is_Some (_adj G2 !! y)) as [ay Hay].
  { apply wf_adj_Some; [done|]. apply touch_has_node. }
  assert (has_edge G u v ↔ has_edge G2 u v) as ->.
  { unfold has_edge, G2.
    rewrite touch_edge_data by (by apply touch_wf).
    by rewrite touch_edge_data. }
  unfold has_edge at 1. unfold get_edge_data at 1. simpl.
  set (d := default ∅ (get_edge_data G2 x y)).
  unfold has_edge, get_edge_data.
  rewrite !lookup_alter.
  destruct (decide (y = u)) as [->|Hyu], (decide (x = u)) as [->|Hxu];
    rewrite ?Hax, ?Hay; simpl.
  4: naive_solver.
  all: rewrite !lookup_insert; repeat case_decide; subst; naive_solver.
Qed.

End nx_facts.

(** ** The three loops of [create_knowledge_graph] *)

Section loops.
Import nx.
Implicit Types (G : Graph) (n u v x : string) (attr : attrs)
               (la lx : list string).

Lemma has_node_eq G G' n : _node G' = _node G → has_node G n → has_node G' n.
Proof. unfold has_node. by intros ->. Qed.

Lemma union_absorb attr (d : attrs) : attr ∪ (attr ∪ d) = attr ∪ d.
Proof. by rewrite (assoc_L (∪)), (idemp_L (∪)). Qed.

(** The first loop: one [add_node] per author. *)
Lemma add_nodes_spec attr la G :
  wf G →
  let G' := foldl (λ G author, add_node author attr G) G la in
  wf G' ∧
  (∀ n, _node G' !! n =
        if decide (n ∈ la) then Some (attr ∪ default ∅ (_node G !! n))
        else _node G !! n) ∧
  (∀ u v, has_edge G' u v ↔ has_edge G u v).
Proof.
  revert G. induction la as [|a la IH]; intros G Hwf; cbv zeta; cbn [foldl].
  - split; [done|]. split; [|done]. intros n.
    case_decide as Hn; [by apply elem_of_nil in Hn|done].
  - destruct (IH (add_node a attr G) (add_node_wf a attr G Hwf))
      as (Hwf' & Hnode & Hedge).
    split; [done|]. split.
    + intros n. rewrite Hnode, add_node_lookup.
      repeat case_decide; subst; simpl; try done;
        try (by rewrite union_absorb); set_solver.
    + intros u v. rewrite Hedge. unfold has_edge.
      by rewrite add_node_edge_data.
Qed.

(** The inner loop: one [add_edge] per author, to a node [x]. *)
Lemma link_spec la x G :
  wf G → has_node G x → Forall (has_node G) la →
  let G' := foldl (λ G author, add_edge author x G) G la in
  wf G' ∧ _node G' = _node G ∧
  (∀ u v, has_edge G' u v ↔
          has_edge G u v ∨ (u ∈ la ∧ v = x) ∨ (u = x ∧ v ∈ la)).
Proof.
  revert G. induction la as [|a la IH]; intros G Hwf Hx Hla; cbv zeta;
    cbn [foldl].
  - split; [done|]. split; [done|]. intros u v. set_solver.
  - apply Forall_cons in Hla as [Ha Hla].
    pose proof (add_edge_node a x G Ha Hx) as Hnode1.
    destruct (IH (add_edge a x G)) as (Hwf' & Hnode & Hedge).
    + by apply add_edge_wf.
    + by apply (has_node_eq G).
    + eapply Forall_impl; [exact Hla|]. intros n. by apply has_node_eq.
    + split; [done|]. split; [congruence|]. intros u v.
      rewrite Hedge, add_edge_has_edge by done. set_solver.
Qed.

(** The second and third loops: a node [x] is added (or relabelled) and
    linked to every author. *)
Lemma add_all_spec attr la lx G :
  wf G → Forall (has_node G) la →
  let G' := foldl (λ G x,
              foldl (λ G author, add_edge author x G)
                    (add_node x attr G) la) G lx in
  wf G' ∧
  (∀ n, _node G' !! n =
        if decide (n ∈ lx) then Some (attr ∪ default ∅ (_node G !! n))
        else _node G !! n) ∧
  (∀ u v, has_edge G' u v ↔
          has_edge G u v ∨ (u ∈ la ∧ v ∈ lx) ∨ (u ∈ lx ∧ v ∈ la)).
Proof.
  revert G. induction lx as [|x lx IH]; intros G Hwf Hla; cbv zeta;
    cbn [foldl].
  - split; [done|]. split.
    + intros n. case_decide as Hn; [by apply elem_of_nil in Hn|done].
    + intros u v. set_solver.
  - set (G1 := add_node x attr G).
    assert (wf G1) as Hwf1 by by apply add_node_wf.
    assert (∀ n, has_node G n → has_node G1 n) as Hmono.
    { intros n Hn. unfold has_node, G1. rewrite add_node_lookup.
      case_decide; eauto. }
    assert (has_node G1 x) as Hx.
    { unfold has_node, G1. rewrite add_node_lookup.
      rewrite decide_True by done. eauto. }
    assert (Forall (has_node G1) la) as Hla1.
    { eapply Forall_impl; [exact Hla|]. exact Hmono. }
    destruct (link_spec la x G1 Hwf1 Hx Hla1) as (Hwf2 & Hnode2 & Hedge2).
    set (G2 := foldl (λ G author, add_edge author x G) G1 la) in *.
    destruct (IH G2 Hwf2) as (Hwf' & Hnode & Hedge).
    { eapply Forall_impl; [exact Hla1|]. intros n. by apply has_node_eq. }
    split; [done|]. split.
    + intros n. rewrite Hnode, Hnode2. unfold G1. rewrite add_node_lookup.
      repeat case_decide; subst; simpl; try done;
        try (by rewrite union_absorb); set_solver.
    + intros u v. rewrite Hedge, Hedge2. unfold G1, has_edge at 1.
      rewrite add_node_edge_data by done. fold (has_edge G u v).
      set_solver.
Qed.

End loops.

(** ** The graph [create_knowledge_graph] returns, in closed form *)

Section graph_facts.
Import nx.
Implicit Types (A O C : gset string) (n u v : string).

Lemma node_attrs_lookup_label label color :
  node_attrs label color !! "label" = Some label.
Proof. unfold node_attrs. by rewrite lookup_insert_eq. Qed.

Lemma node_attrs_union label color label' color' :
  node_attrs label color ∪ node_attrs label' color' = node_attrs label color.
Proof.
  apply map_eq. intros k. unfold node_attrs.
  rewrite lookup_union, !lookup_insert, !lookup_empty.
  by repeat case_decide.
Qed.

Lemma node_attrs_union_empty label color :
  node_attrs label color ∪ ∅ = node_attrs label color.
Proof. by rewrite (right_id_L ∅ (∪)). Qed.

Lemma empty_no_edge u v : ¬ has_edge empty u v.
Proof.
  unfold has_edge, get_edge_data, empty; simpl. rewrite lookup_empty.
  by intros [d Hd].
Qed.

(** The nodes, their attributes and the edges of the graph, for any order
    of enumeration. *)
Lemma create_knowledge_graph_in_spec (la lo lc : list string) :
  let G := create_knowledge_graph_in la lo lc in
  wf G ∧
  (∀ n, _node G !! n =
        if decide (n ∈ lc) then Some (node_attrs "Citation" "green")
        else if decide (n ∈ lo) then Some (node_attrs "Organization" "red")
        else if decide (n ∈ la) then Some (node_attrs "Author" "blue")
        else None) ∧
  (∀ u v, has_edge G u v ↔
          (u ∈ la ∧ (v ∈ lo ∨ v ∈ lc)) ∨ ((u ∈ lo ∨ u ∈ lc) ∧ v ∈ la)).
Proof.
  unfold create_knowledge_graph_in; cbv zeta.
  destruct (add_nodes_spec (node_attrs "Author" "blue") la empty wf_empty)
    as (Hwf1 & Hnode1 & Hedge1).
  set (G1 := foldl _ empty la) in *.
  assert (∀ G, (∀ n, n ∈ la → has_node G n) → Forall (has_node G) la)
    as Hall by (intros G HG; by apply Forall_forall).
  assert (∀ n, n ∈ la → has_node G1 n) as HA1.
  { intros n Hn. unfold has_node. rewrite Hnode1.
    rewrite decide_True by done. eauto. }
  destruct (add_all_spec (node_attrs "Organization" "red") la lo G1 Hwf1
              (Hall G1 HA1)) as (Hwf2 & Hnode2 & Hedge2).
  set (G2 := foldl _ G1 lo) in *.
  assert (∀ n, n ∈ la → has_node G2 n) as HA2.
  { intros n Hn. unfold has_node. rewrite Hnode2.
    case_decide; [eauto|]. by apply HA1. }
  destruct (add_all_spec (node_attrs "Citation" "green") la lc G2 Hwf2
              (Hall G2 HA2)) as (Hwf3 & Hnode3 & Hedge3).
  set (G3 := foldl _ G2 lc) in *.
  split; [done|]. split.
  - intros n. rewrite Hnode3, Hnode2, Hnode1. unfold empty; simpl.
    rewrite lookup_empty.
    repeat case_decide; simpl;
      rewrite ?node_attrs_union, ?node_attrs_union_empty; done.
  - intros u v. rewrite Hedge3, Hedge2, Hedge1.
    pose proof (empty_no_edge u v). tauto.
Qed.

Lemma decide_elements (X : gset string) n {B} (b1 b2 : B) :
  (if decide (n ∈ elements X) then b1 else b2) =
  (if decide (n ∈ X) then b1 else b2).
Proof. apply decide_ext, elem_of_elements. Qed.

(** The same for the sets [create_knowledge_graph] is given. *)
Lemma create_knowledge_graph_spec A O C :
  let G := create_knowledge_graph A O C in
  wf G ∧
  (∀ n, _node G !! n =
        if decide (n ∈ C) then Some (node_attrs "Citation" "green")
        else if decide (n ∈ O) then Some (node_attrs "Organization" "red")
        else if decide (n ∈ A) then Some (node_attrs "Author" "blue")
        else None) ∧
  (∀ u v, has_edge G u v ↔ (u ∈ A ∧ v ∈ O ∪ C) ∨ (u ∈ O ∪ C ∧ v ∈ A)).
Proof.
  unfold create_knowledge_graph.
  destruct (create_knowledge_graph_in_spec
              (elements A) (elements O) (elements C))
    as (Hwf & Hnode & Hedge).
  split; [done|]. split.
  - intros n. by rewrite Hnode, !decide_elements.
  - intros u v. rewrite Hedge, !elem_of_elements, !elem_of_union. done.
Qed.

(** The order in which Python enumerates the three sets has no bearing on
    the nodes, their attributes and the edges. *)
Lemma create_knowledge_graph_order A O C (la lo lc : list string) :
  la ≡ₚ elements A → lo ≡ₚ elements O → lc ≡ₚ elements C →
  let G := create_knowledge_graph_in la lo lc in
  _node G = _node (create_knowledge_graph A O C) ∧
  (∀ u v, has_edge G u v ↔ has_edge (create_knowledge_graph A O C) u v).
Proof.
  intros Ha Ho Hc G.
  destruct (create_knowledge_graph_in_spec la lo lc)
    as (_ & Hnode & Hedge).
  destruct (create_knowledge_graph_spec A O C) as (_ & Hnode' & Hedge').
  fold G in Hnode, Hedge.
  assert (∀ n, n ∈ la ↔ n ∈ A) as HA
    by (intros n; by rewrite Ha, elem_of_elements).
  assert (∀ n, n ∈ lo ↔ n ∈ O) as HO
    by (intros n; by rewrite Ho, elem_of_elements).
  assert (∀ n, n ∈ lc ↔ n ∈ C) as HC
    by (intros n; by rewrite Hc, elem_of_elements).
  split.
  - apply map_eq. intros n. rewrite Hnode, Hnode'.
    rewrite (decide_ext _ _ _ _ (HA n)), (decide_ext _ _ _ _ (HO n)),
      (decide_ext _ _ _ _ (HC n)). done.
  - intros u v. rewrite Hedge, Hedge', !HA, !HO, !HC, !elem_of_union. done.
Qed.

Lemma create_knowledge_graph_dom A O C :
  dom (_node (create_knowledge_graph A O C)) = A ∪ O ∪ C.
Proof.
  destruct (create_knowledge_graph_spec A O C) as (_ & Hnode & _).
  apply set_eq. intros n. rewrite elem_of_dom, Hnode.
  repeat case_decide; split; intros H'; try set_solver; eauto.
Qed.

Lemma create_knowledge_graph_label A O C n :
  node_attr (create_knowledge_graph A O C) n "label" =
  if decide (n ∈ C) then Some "Citation"
  else if decide (n ∈ O) then Some "Organization"
  else if decide (n ∈ A) then Some "Author"
  else None.
Proof.
  destruct (create_knowledge_graph_spec A O C) as (_ & Hnode & _).
  unfold node_attr. rewrite Hnode.
  repeat case_decide; simpl; by rewrite ?node_attrs_lookup_label.
Qed.

Lemma sum_list_zero {X} (f : X → nat) (l : list X) :
  (∀ x, x ∈ l → f x = 0) → sum_list (f <$> l) = 0.
Proof.
  induction l as [|x l IH]; intros Hf; [done|].
  rewrite fmap_cons; cbn [sum_list].
  rewrite Hf by set_solver. rewrite IH; [done|].
  intros y Hy. apply Hf. set_solver.
Qed.

End graph_facts.

(** ** The three sets [extract_entities] returns *)

Section entity_facts.
Import spacy.
Variable nlp : string → list Span.
Implicit Types (t : string) (ents : list Span)
               (authors organizations citations : gset string).

Local Abbreviation bucket :=
  (λ '(authors, organizations, citations) ent,
     if decide (label_ ent = "PERSON") then
       ({[text ent]} ∪ authors, organizations, citations)
     else if decide (label_ ent = "ORG") then
       (authors, {[text ent]} ∪ organizations, citations)
     else if decide (label_ ent ∈ ["WORK_OF_ART"; "MISC"]) then
       (authors, organizations, {[text ent]} ∪ citations)
     else (authors, organizations, citations)).

(** One turn of the loop: the induction hypothesis at the sets the turn
    leaves, then membership in the rest of the spans. *)
Local Ltac bucket_step IH :=
  let IHa := fresh "IHa" in
  let IHo := fresh "IHo" in
  let IHc := fresh "IHc" in
  destruct IH as (IHa & IHo & IHc);
  (split; [|split]); intros ?; rewrite ?IHa, ?IHo, ?IHc, !elem_of_cons;
  set_solver.

Lemma bucket_spec ents authors organizations citations :
  let r := foldl bucket (authors, organizations, citations) ents in
  (∀ t, t ∈ r.1.1 ↔ t ∈ authors ∨ mkSpan t "PERSON" ∈ ents) ∧
  (∀ t, t ∈ r.1.2 ↔ t ∈ organizations ∨ mkSpan t "ORG" ∈ ents) ∧
  (∀ t, t ∈ r.2 ↔
        t ∈ citations ∨ mkSpan t "WORK_OF_ART" ∈ ents
        ∨ mkSpan t "MISC" ∈ ents).
Proof.
  revert authors organizations citations.
  induction ents as [|[t0 l0] ents IH]; intros a o c; cbv zeta;
    cbn [foldl].
  - simpl. set_solver.
  - cbn beta iota. cbn [label_ text].
    destruct (decide (l0 = "PERSON")) as [->|Hp];
      [by bucket_step (IH ({[t0]} ∪ a) o c)|].
    destruct (decide (l0 = "ORG")) as [->|Ho];
      [by bucket_step (IH a ({[t0]} ∪ o) c)|].
    destruct (decide (l0 ∈ ["WORK_OF_ART"; "MISC"])) as [Hc|Hc];
      [by bucket_step (IH a o ({[t0]} ∪ c))|].
    by bucket_step (IH a o c).
Qed.

Lemma extract_entities_authors txt t :
  t ∈ (extract_entities nlp txt).1.1 ↔ mkSpan t "PERSON" ∈ nlp txt.
Proof.
  destruct (bucket_spec (nlp txt) ∅ ∅ ∅) as (H & _ & _).
  unfold extract_entities. rewrite H. set_solver.
Qed.

Lemma extract_entities_organizations txt t :
  t ∈ (extract_entities nlp txt).1.2 ↔ mkSpan t "ORG" ∈ nlp txt.
Proof.
  destruct (bucket_spec (nlp txt) ∅ ∅ ∅) as (_ & H & _).
  unfold extract_entities. rewrite H. set_solver.
Qed.

Lemma extract_entities_citations txt t :
  t ∈ (extract_entities nlp txt).2 ↔
  mkSpan t "WORK_OF_ART" ∈ nlp txt ∨ mkSpan t "MISC" ∈ nlp txt.
Proof.
  destruct (bucket_spec (nlp txt) ∅ ∅ ∅) as (_ & _ & H).
  unfold extract_entities. rewrite H. set_solver.
Qed.

Lemma span_eta (ent : Span) : ent = mkSpan (text ent) (label_ ent).
Proof. by destruct ent. Qed.

End entity_facts.

(** ** Files and the page *)

Section world_facts.
Variable nlp : string → list spacy.Span.
Variable pdf : Type.
Variable fitz_pages : pdf → exn + list string.
Variable Network : Type.
Variable from_nx : nx.Graph → exn + Network.
Variable generate_html : Network → exn + string.
Variable mkstemp : string → gmap string string → string.

Local Abbreviation render_graph' :=
  (render_graph Network from_nx generate_html mkstemp).
Local Abbreviation main' :=
  (main nlp pdf fitz_pages Network from_nx generate_html mkstemp).


(** Rendering draws nothing on the page, whatever happens. *)
Lemma render_graph_screen G w : screen (render_graph' G w).1 = screen w.
Proof.
  unfold render_graph, NamedTemporaryFile, save_graph, read_file, os_unlink,
    get_files, syscall_do, lift, mbind, M_bind, mret, M_ret; simpl.
  destruct (from_nx G) as [e|net]; simpl; [done|].
  destruct (generate_html net) as [e|code]; simpl; [done|].
  rewrite !lookup_insert_eq; simpl. by rewrite !lookup_insert_eq.
Qed.

(** The page after a run on an upload whose text could be extracted. *)
Lemma main_screen uploaded_file pages w :
  fitz_pages uploaded_file = inr pages →
  let r := extract_entities nlp (String.concat newline pages) in
  ∃ tail : list (st.container * st.call),
    screen (main' (Some uploaded_file) w).1 =
    (screen w ++
    [ (st.page, st.set_page_config "Knowledge Graph from PDFs" "wide");
      (st.page, st.title "📄 Technical Paper Knowledge Graph");
      (st.page, st.write (st.Str "Upload a technical paper in PDF format, and we will extract key entities and visualize their relationships."));
      (st.page, st.file_uploader "Upload PDF" ["pdf"]);
      (st.page, st.spinner "Extracting text from PDF...");
      (st.page, st.subheader "Extracted Entities");
      (st.page, st.columns 3);
      (st.column 1, st.write (st.Str "### Authors"));
      (st.column 1, st.write (or_else r.1.1 "No authors found"));
      (st.column 2, st.write (st.Str "### Organizations"));
      (st.column 2, st.write (or_else r.1.2 "No organizations found"));
      (st.column 3, st.write (st.Str "### Citations"));
      (st.column 3, st.write (or_else r.2 "No citations found"));
      (st.page, st.subheader "📊 Knowledge Graph") ] ++ tail)%list
    ∧ Forall (λ e, e.1 = st.page) tail.
Proof.
  intros Hpages r.
  unfold main, extract_text_from_pdf, st_call, lift, mbind, M_bind, mret,
    M_ret; simpl.
  rewrite Hpages; simpl. fold r.
  destruct r as [[authors organizations] citations]; simpl.
  match goal with
  | |- context [render_graph' ?G ?w1] =>
      pose proof (render_graph_screen G w1) as Hscr;
      destruct (render_graph' G w1) as [w2 [e|graph_html]]
  end; simpl in *.
  - exists []. rewrite Hscr. rewrite <- !(assoc_L (++)). simpl.
    split; [done|]. constructor.
  - exists [(st.page, st.html graph_html 600)]. rewrite Hscr.
    rewrite <- !(assoc_L (++)). simpl. split; [done|].
    by repeat constructor.
Qed.

Lemma column_calls_app i (l1 l2 : list (st.container * st.call)) :
  column_calls i (l1 ++ l2) = (column_calls i l1 ++ column_calls i l2)%list.
Proof. unfold column_calls. by rewrite filter_app, fmap_app. Qed.

Lemma column_calls_page i tail :
  Forall (λ e, e.1 = st.page) tail → column_calls i tail = [].
Proof.
  unfold column_calls. induction 1 as [|[c k] tail Hc _ IH]; [done|].
  simpl in Hc; subst c. rewrite filter_cons_False; [done|]. by simpl.
Qed.

End world_facts.

(** * The claims *)

(** ** Graph construction *)

(** C1 (as amended).  For all sets of authors, organizations and citations,
    the graph has an edge from every author to every organization and from
    every author to every citation, and every edge of the graph joins a
    string of the authors set to a string of the organizations or citations
    set.  Hence, when no author string is also an organization or a
    citation, no edge joins two organizations, two citations, or an
    organization and a citation. *)
Theorem create_knowledge_graph_edges (A O C : gset string) :
  let G := create_knowledge_graph A O C in
  (∀ a o, a ∈ A → o ∈ O → nx.has_edge G a o) ∧
  (∀ a c, a ∈ A → c ∈ C → nx.has_edge G a c) ∧
  (∀ u v, nx.has_edge G u v →
          (u ∈ A ∧ v ∈ O ∪ C) ∨ (v ∈ A ∧ u ∈ O ∪ C)) ∧
  (A ## O ∪ C →
   ∀ u v, u ∈ O ∪ C → v ∈ O ∪ C → ¬ nx.has_edge G u v).
Proof.
  intros G.
  destruct (create_knowledge_graph_spec A O C) as (_ & _ & Hedge).
  fold G in Hedge.
  split; [|split; [|split]].
  - intros a o Ha Ho. apply Hedge. left. set_solver.
  - intros a c Ha Hc. apply Hedge. left. set_solver.
  - intros u v Huv. apply Hedge in Huv. tauto.
  - intros Hdisj u v Hu Hv Huv. apply Hedge in Huv. set_solver.
Qed.

Lemma create_knowledge_graph_edges_witness :
  let G := create_knowledge_graph
             {["Jane Doe"]} {["Acme Corp"]} {["Principia Mathematica"]} in
  nx.has_edge G "Jane Doe" "Acme Corp" ∧
  nx.has_edge G "Jane Doe" "Principia Mathematica" ∧
  ¬ nx.has_edge G "Acme Corp" "Principia Mathematica".
Proof.
  intros G.
  destruct (create_knowledge_graph_edges
              {["Jane Doe"]} {["Acme Corp"]} {["Principia Mathematica"]})
    as (Ho & Hc & _ & Hnone).
  split; [|split].
  - apply Ho; by apply elem_of_singleton.
  - apply Hc; by apply elem_of_singleton.
  - apply Hnone.
    + intros x Hx Hx'. apply elem_of_singleton in Hx. subst x.
      apply elem_of_union in Hx' as [Hx'|Hx'];
        apply elem_of_singleton in Hx'; discriminate.
    + apply elem_of_union_l. by apply elem_of_singleton.
    + apply elem_of_union_r. by apply elem_of_singleton.
Defined.

(** C1, the claim as stated fails: a string the recogniser tagged both as a
    person and as an organization is an author, so it is linked to every
    organization, itself included; both ends of these edges are in the
    organizations set. *)
Lemma edge_between_two_organizations :
  let authors : gset string := {["Stanford"]} in
  let organizations : gset string := {["Stanford"; "Acme Corp"]} in
  let G := create_knowledge_graph authors organizations ∅ in
  "Stanford" ∈ organizations ∧ "Acme Corp" ∈ organizations ∧
  nx.has_edge G "Stanford" "Acme Corp" ∧ nx.has_edge G "Stanford" "Stanford".
Proof.
  intros authors organizations G.
  split; [set_solver|]. split; [set_solver|].
  split; vm_compute; eauto.
Qed.

(** C4.  When the recogniser detects exactly one PERSON, "Jane Doe", and one
    ORG, "Acme Corp", and nothing else (in either order), the graph built
    from the extracted sets has exactly two nodes, these two, and exactly one
    edge, which joins them. *)
Theorem jane_doe_acme_graph (nlp : string → list spacy.Span) (txt : string) :
  nlp txt ≡ₚ [spacy.mkSpan "Jane Doe" "PERSON";
              spacy.mkSpan "Acme Corp" "ORG"] →
  let r := extract_entities nlp txt in
  let G := create_knowledge_graph r.1.1 r.1.2 r.2 in
  nx.number_of_nodes G = 2 ∧ nx.number_of_edges G = 1 ∧
  nx.has_node G "Jane Doe" ∧ nx.has_node G "Acme Corp" ∧
  nx.has_edge G "Jane Doe" "Acme Corp" ∧ nx.has_edge G "Acme Corp" "Jane Doe".
Proof.
  intros Hents r G.
  assert (r.1.1 = {["Jane Doe"]}) as Ha.
  { apply set_eq. intros t. unfold r.
    rewrite extract_entities_authors, Hents, !elem_of_cons, elem_of_nil.
    rewrite elem_of_singleton. naive_solver. }
  assert (r.1.2 = {["Acme Corp"]}) as Ho.
  { apply set_eq. intros t. unfold r.
    rewrite extract_entities_organizations, Hents, !elem_of_cons, elem_of_nil.
    rewrite elem_of_singleton. naive_solver. }
  assert (r.2 = ∅) as Hc.
  { apply set_eq. intros t. unfold r.
    rewrite extract_entities_citations, Hents, !elem_of_cons, !elem_of_nil.
    rewrite elem_of_empty. naive_solver. }
  unfold G. rewrite Ha, Ho, Hc.
  repeat split; vm_compute; eauto.
Qed.

Lemma jane_doe_acme_graph_witness :
  let nlp := λ _ : string, [spacy.mkSpan "Acme Corp" "ORG";
                            spacy.mkSpan "Jane Doe" "PERSON"] in
  let r := extract_entities nlp "Jane Doe, Acme Corp" in
  let G := create_knowledge_graph r.1.1 r.1.2 r.2 in
  nx.number_of_nodes G = 2 ∧ nx.number_of_edges G = 1 ∧
  nx.has_node G "Jane Doe" ∧ nx.has_node G "Acme Corp" ∧
  nx.has_edge G "Jane Doe" "Acme Corp" ∧ nx.has_edge G "Acme Corp" "Jane Doe".
Proof.
  intros nlp. apply (jane_doe_acme_graph nlp "Jane Doe, Acme Corp").
  unfold nlp. apply Permutation_swap.
Defined.

(** C6.  Every node of the graph carries a label attribute, and it is one of
    "Author", "Organization" and "Citation". *)
Theorem node_labels_valid (A O C : gset string) (n : string) :
  nx.has_node (create_knowledge_graph A O C) n →
  ∃ label, nx.node_attr (create_knowledge_graph A O C) n "label" = Some label
           ∧ label ∈ ["Author"; "Organization"; "Citation"].
Proof.
  intros Hn. apply elem_of_dom in Hn.
  rewrite create_knowledge_graph_dom in Hn.
  rewrite create_knowledge_graph_label.
  repeat case_decide.
  - exists "Citation". split; [done|]. set_solver.
  - exists "Organization". split; [done|]. set_solver.
  - exists "Author". split; [done|]. set_solver.
  - set_solver.
Qed.

Lemma node_labels_valid_witness :
  ∃ label,
    nx.node_attr (create_knowledge_graph {["Jane Doe"]} {["Acme Corp"]} ∅)
                 "Acme Corp" "label" = Some label
    ∧ label ∈ ["Author"; "Organization"; "Citation"].
Proof.
  apply (node_labels_valid {["Jane Doe"]} {["Acme Corp"]} ∅ "Acme Corp").
  vm_compute. eauto.
Defined.

(** C9 (as amended).  A string in both the authors and the organizations set
    and not in the citations set is one node labelled "Organization"; a
    string in both the authors and the citations set is one node labelled
    "Citation"; in both cases the node has a self-loop.  The graph has one
    node per distinct string of the three sets. *)
Theorem shared_string_relabelled (A O C : gset string) (s : string) :
  let G := create_knowledge_graph A O C in
  (s ∈ A → s ∈ O → s ∉ C →
   nx.node_attr G s "label" = Some "Organization" ∧ nx.has_edge G s s) ∧
  (s ∈ A → s ∈ C →
   nx.node_attr G s "label" = Some "Citation" ∧ nx.has_edge G s s) ∧
  nx.number_of_nodes G = size (A ∪ O ∪ C).
Proof.
  intros G.
  destruct (create_knowledge_graph_spec A O C) as (_ & _ & Hedge).
  fold G in Hedge. unfold G.
  split; [|split].
  - intros HA HO HC. rewrite create_knowledge_graph_label.
    rewrite decide_False, decide_True by done.
    split; [done|]. apply Hedge. left. set_solver.
  - intros HA HC. rewrite create_knowledge_graph_label.
    rewrite decide_True by done.
    split; [done|]. apply Hedge. left. set_solver.
  - unfold nx.number_of_nodes.
    by rewrite <- size_dom, create_knowledge_graph_dom.
Qed.

Lemma shared_string_relabelled_witness :
  let G := create_knowledge_graph {["Stanford"; "Jane Doe"]} {["Stanford"]}
                                  {["Jane Doe"]} in
  (nx.node_attr G "Stanford" "label" = Some "Organization"
   ∧ nx.has_edge G "Stanford" "Stanford") ∧
  (nx.node_attr G "Jane Doe" "label" = Some "Citation"
   ∧ nx.has_edge G "Jane Doe" "Jane Doe").
Proof.
  intros G.
  destruct (shared_string_relabelled {["Stanford"; "Jane Doe"]} {["Stanford"]}
              {["Jane Doe"]} "Stanford") as (Horg & _ & _).
  destruct (shared_string_relabelled {["Stanford"; "Jane Doe"]} {["Stanford"]}
              {["Jane Doe"]} "Jane Doe") as (_ & Hcit & _).
  split.
  - apply Horg.
    + apply elem_of_union_l. by apply elem_of_singleton.
    + by apply elem_of_singleton.
    + intros H. apply elem_of_singleton in H. discriminate.
  - apply Hcit.
    + apply elem_of_union_r. by apply elem_of_singleton.
    + by apply elem_of_singleton.
Defined.

(** C9, the claim as stated fails: a string in all three sets is in both the
    authors and the organizations set, and its node is labelled "Citation",
    the label the last loop wrote. *)
Lemma author_organization_citation_label :
  let s : gset string := {["Nature"]} in
  "Nature" ∈ s ∧
  nx.node_attr (create_knowledge_graph s s s) "Nature" "label"
  = Some "Citation" ∧
  nx.node_attr (create_knowledge_graph s s s) "Nature" "label"
  ≠ Some "Organization".
Proof.
  intros s. split; [set_solver|]. split; [by vm_compute|].
  by vm_compute.
Qed.

(** C10.  With an empty authors set the graph has no edge: no two strings
    are joined, the number of edges is 0, and every organization and every
    citation is a node with no neighbour. *)
Theorem no_authors_no_edges (O C : gset string) :
  let G := create_knowledge_graph ∅ O C in
  (∀ u v, ¬ nx.has_edge G u v) ∧
  nx.number_of_edges G = 0 ∧
  (∀ n, n ∈ O ∪ C →
        nx.has_node G n ∧ nx.neighbors G n = ∅ ∧ nx.degree G n = 0).
Proof.
  intros G.
  destruct (create_knowledge_graph_spec ∅ O C) as (_ & _ & Hedge).
  fold G in Hedge.
  assert (∀ u v, ¬ nx.has_edge G u v) as Hnone.
  { intros u v Huv. apply Hedge in Huv. set_solver. }
  assert (∀ n, nx.neighbors G n = ∅) as Hnb.
  { intros n. apply set_eq. intros v. rewrite has_edge_neighbors.
    split; [by intros ?%Hnone|set_solver]. }
  assert (∀ n, nx.degree G n = 0) as Hdeg.
  { intros n. unfold nx.degree. rewrite Hnb, size_empty.
    rewrite decide_False by set_solver. done. }
  split; [done|]. split.
  - unfold nx.number_of_edges. rewrite sum_list_zero; [done|]. auto.
  - intros n Hn. split; [|by split].
    apply elem_of_dom. unfold G. rewrite create_knowledge_graph_dom.
    set_solver.
Qed.

Lemma no_authors_no_edges_witness :
  let G := create_knowledge_graph ∅ {["Acme Corp"]} {["Principia Mathematica"]} in
  nx.has_node G "Acme Corp" ∧ nx.neighbors G "Acme Corp" = ∅
  ∧ nx.degree G "Acme Corp" = 0.
Proof.
  intros G.
  apply (no_authors_no_edges {["Acme Corp"]} {["Principia Mathematica"]}).
  apply elem_of_union_l. by apply elem_of_singleton.
Defined.

(** ** Entity extraction *)

(** C2 (as amended).  The text of every span labelled PERSON is in the
    authors set.  It is in the organizations set exactly when some span with
    the same text is labelled ORG, and in the citations set exactly when
    some span with the same text is labelled WORK_OF_ART or MISC. *)
Theorem person_in_authors (nlp : string → list spacy.Span) (txt : string)
    (ent : spacy.Span) :
  ent ∈ nlp txt → spacy.label_ ent = "PERSON" →
  let r := extract_entities nlp txt in
  spacy.text ent ∈ r.1.1 ∧
  (spacy.text ent ∈ r.1.2 ↔ spacy.mkSpan (spacy.text ent) "ORG" ∈ nlp txt) ∧
  (spacy.text ent ∈ r.2 ↔
   spacy.mkSpan (spacy.text ent) "WORK_OF_ART" ∈ nlp txt
   ∨ spacy.mkSpan (spacy.text ent) "MISC" ∈ nlp txt).
Proof.
  intros Hent Hlabel r. unfold r. split; [|split].
  - apply extract_entities_authors. by rewrite <- Hlabel, <- span_eta.
  - apply extract_entities_organizations.
  - apply extract_entities_citations.
Qed.

Lemma person_in_authors_witness :
  let nlp := λ _ : string, [spacy.mkSpan "Acme Corp" "ORG";
                            spacy.mkSpan "Jane Doe" "PERSON"] in
  let r := extract_entities nlp "Jane Doe, Acme Corp" in
  "Jane Doe" ∈ r.1.1 ∧
  ("Jane Doe" ∈ r.1.2 ↔
   spacy.mkSpan "Jane Doe" "ORG" ∈ nlp "Jane Doe, Acme Corp") ∧
  ("Jane Doe" ∈ r.2 ↔
   spacy.mkSpan "Jane Doe" "WORK_OF_ART" ∈ nlp "Jane Doe, Acme Corp"
   ∨ spacy.mkSpan "Jane Doe" "MISC" ∈ nlp "Jane Doe, Acme Corp").
Proof.
  intros nlp.
  apply (person_in_authors nlp "Jane Doe, Acme Corp"
           (spacy.mkSpan "Jane Doe" "PERSON")).
  - unfold nlp. apply list_elem_of_further, list_elem_of_here.
  - reflexivity.
Defined.

(** C2, the claim as stated fails: the recogniser may label one occurrence
    of a name PERSON and another ORG; the text of the PERSON span is then in
    the organizations set as well. *)
Lemma person_text_also_organization :
  let nlp := λ _ : string, [spacy.mkSpan "Ford" "PERSON";
                            spacy.mkSpan "Ford" "ORG"] in
  let r := extract_entities nlp "Ford founded Ford." in
  spacy.mkSpan "Ford" "PERSON" ∈ nlp "Ford founded Ford." ∧
  "Ford" ∈ r.1.1 ∧ "Ford" ∈ r.1.2.
Proof.
  intros nlp r. split; [apply list_elem_of_here|]. unfold r.
  rewrite extract_entities_authors, extract_entities_organizations.
  unfold nlp. split; [apply list_elem_of_here|].
  apply list_elem_of_further, list_elem_of_here.
Qed.

(** C3 (as amended).  The text of every span labelled ORG is in the
    organizations set and the text of every span labelled WORK_OF_ART or
    MISC is in the citations set.  A span with any other label adds nothing:
    a string is in one of the three sets only if it is the text of a span
    labelled PERSON, ORG, WORK_OF_ART or MISC, and the three sets are the
    same as when the spans with other labels are left out. *)
Theorem labels_bucketed (nlp : string → list spacy.Span) (txt : string) :
  let consumed := λ ent : spacy.Span,
    spacy.label_ ent ∈ ["PERSON"; "ORG"; "WORK_OF_ART"; "MISC"] in
  let r := extract_entities nlp txt in
  (∀ ent, ent ∈ nlp txt → spacy.label_ ent = "ORG" →
          spacy.text ent ∈ r.1.2) ∧
  (∀ ent, ent ∈ nlp txt →
          spacy.label_ ent = "WORK_OF_ART" ∨ spacy.label_ ent = "MISC" →
          spacy.text ent ∈ r.2) ∧
  (∀ t, t ∈ r.1.1 ∪ r.1.2 ∪ r.2 →
        ∃ ent, ent ∈ nlp txt ∧ spacy.text ent = t ∧ consumed ent) ∧
  extract_entities (λ t, filter consumed (nlp t)) txt = r.
Proof.
  intros consumed r. unfold r. split; [|split; [|split]].
  - intros ent Hent Hlabel. apply extract_entities_organizations.
    by rewrite <- Hlabel, <- span_eta.
  - intros ent Hent Hlabel. apply extract_entities_citations.
    destruct Hlabel as [Hlabel|Hlabel]; [left|right];
      by rewrite <- Hlabel, <- span_eta.
  - intros t. rewrite !elem_of_union.
    rewrite extract_entities_authors, extract_entities_organizations,
      extract_entities_citations.
    intros [[H|H]|[H|H]]; eexists; (split; [exact H|]);
      (split; [done|]); unfold consumed; simpl; set_solver.
  - assert (∀ (x y : gset string * gset string * gset string),
              x.1.1 = y.1.1 → x.1.2 = y.1.2 → x.2 = y.2 → x = y) as Heq.
    { intros [[??]?] [[??]?]; simpl. by intros -> -> ->. }
    apply Heq; apply set_eq; intros t.
    + rewrite !extract_entities_authors, list_elem_of_filter.
      unfold consumed; simpl. set_solver.
    + rewrite !extract_entities_organizations, list_elem_of_filter.
      unfold consumed; simpl. set_solver.
    + rewrite !extract_entities_citations, !list_elem_of_filter.
      unfold consumed; simpl. set_solver.
Qed.

Lemma labels_bucketed_witness :
  let nlp := λ _ : string, [spacy.mkSpan "Acme Corp" "ORG";
                            spacy.mkSpan "Paris" "GPE";
                            spacy.mkSpan "Principia Mathematica" "WORK_OF_ART"] in
  let r := extract_entities nlp "Acme Corp, Paris: Principia Mathematica" in
  "Acme Corp" ∈ r.1.2 ∧ "Principia Mathematica" ∈ r.2.
Proof.
  intros nlp.
  destruct (labels_bucketed nlp "Acme Corp, Paris: Principia Mathematica")
    as (Horg & Hcit & _ & _).
  split.
  - apply (Horg (spacy.mkSpan "Acme Corp" "ORG")); [|reflexivity].
    unfold nlp. apply list_elem_of_here.
  - apply (Hcit (spacy.mkSpan "Principia Mathematica" "WORK_OF_ART"));
      [|left; reflexivity].
    unfold nlp. do 2 apply list_elem_of_further. apply list_elem_of_here.
Defined.

(** C3, the claim as stated fails: a span with another label (GPE) has its
    text in the authors set when another span with the same text is labelled
    PERSON. *)
Lemma other_label_text_in_authors :
  let nlp := λ _ : string, [spacy.mkSpan "Paris" "GPE";
                            spacy.mkSpan "Paris" "PERSON"] in
  let r := extract_entities nlp "Paris met Paris." in
  spacy.mkSpan "Paris" "GPE" ∈ nlp "Paris met Paris." ∧
  ("GPE" ∉ ["PERSON"; "ORG"; "WORK_OF_ART"; "MISC"]) ∧
  "Paris" ∈ r.1.1.
Proof.
  intros nlp r. split; [apply list_elem_of_here|].
  split; [set_solver|]. unfold r. rewrite extract_entities_authors.
  unfold nlp. apply list_elem_of_further, list_elem_of_here.
Qed.

Lemma occurrences_NoDup (t : string) (l : list string) :
  NoDup l → occurrences t l = if decide (t ∈ l) then 1 else 0.
Proof.
  unfold occurrences. induction 1 as [|x l Hx Hl IH].
  - by rewrite decide_False by apply not_elem_of_nil.
  - destruct (decide (t = x)) as [->|Hne].
    + rewrite filter_cons_True by done. simpl. rewrite IH.
      rewrite decide_False by done.
      by rewrite decide_True by apply list_elem_of_here.
    + rewrite filter_cons_False by done. rewrite IH.
      destruct (decide (t ∈ l)) as [Hin|Hnin].
      * by rewrite decide_True by by apply list_elem_of_further.
      * rewrite decide_False; [done|]. rewrite elem_of_cons. tauto.
Qed.

Lemma occurrences_elements (t : string) (X : gset string) :
  occurrences t (elements X) = if decide (t ∈ X) then 1 else 0.
Proof.
  rewrite occurrences_NoDup by apply NoDup_elements.
  destruct (decide (t ∈ X)) as [Hin|Hnin].
  - by rewrite decide_True by by apply elem_of_elements.
  - rewrite decide_False; [done|]. by rewrite elem_of_elements.
Qed.

(** C5.  Enumerating any of the three returned sets yields each string at
    most once: a string occurs once if some span with that text carries a
    label of the set, however many such spans there are, and not at all
    otherwise. *)
Theorem entity_sets_deduplicated (nlp : string → list spacy.Span)
    (txt t : string) :
  let r := extract_entities nlp txt in
  (occurrences t (elements r.1.1) =
     if decide (spacy.mkSpan t "PERSON" ∈ nlp txt) then 1 else 0) ∧
  (occurrences t (elements r.1.2) =
     if decide (spacy.mkSpan t "ORG" ∈ nlp txt) then 1 else 0) ∧
  (occurrences t (elements r.2) =
     if decide (spacy.mkSpan t "WORK_OF_ART" ∈ nlp txt
                ∨ spacy.mkSpan t "MISC" ∈ nlp txt) then 1 else 0) ∧
  NoDup (elements r.1.1) ∧ NoDup (elements r.1.2) ∧ NoDup (elements r.2).
Proof.
  intros r. unfold r. rewrite !occurrences_elements.
  split; [|split; [|split]].
  - apply decide_ext, extract_entities_authors.
  - apply decide_ext, extract_entities_organizations.
  - apply decide_ext, extract_entities_citations.
  - repeat split; apply NoDup_elements.
Qed.

Example extract_entities_repeated :
  let nlp := λ _ : string, [spacy.mkSpan "Jane Doe" "PERSON";
                            spacy.mkSpan "Jane Doe" "PERSON";
                            spacy.mkSpan "Jane Doe" "PERSON"] in
  elements (extract_entities nlp "").1.1 = ["Jane Doe"].
Proof. by vm_compute. Qed.

(** ** The results display *)

(** C7.  On a run with an upload whose text could be extracted, a category
    whose set is empty shows, under its heading, the text "No authors found"
    (respectively "No organizations found", "No citations found"): these two
    texts are all the run draws in the category's column, and the indicator
    is not blank. *)
Theorem none_found_indicator
    (nlp : string → list spacy.Span)
    (pdf : Type) (fitz_pages : pdf → exn + list string)
    (Network : Type) (from_nx : nx.Graph → exn + Network)
    (generate_html : Network → exn + string)
    (mkstemp : string → gmap string string → string)
    (uploaded_file : pdf) (pages : list string) (w : World) :
  fitz_pages uploaded_file = inr pages →
  let r := extract_entities nlp (String.concat newline pages) in
  let shown := screen (main nlp pdf fitz_pages Network from_nx generate_html
                            mkstemp (Some uploaded_file) w).1 in
  (r.1.1 = ∅ →
   column_calls 1 shown =
   (column_calls 1 (screen w) ++
    [st.write (st.Str "### Authors");
     st.write (st.Str "No authors found")])%list) ∧
  (r.1.2 = ∅ →
   column_calls 2 shown =
   (column_calls 2 (screen w) ++
    [st.write (st.Str "### Organizations");
     st.write (st.Str "No organizations found")])%list) ∧
  (r.2 = ∅ →
   column_calls 3 shown =
   (column_calls 3 (screen w) ++
    [st.write (st.Str "### Citations");
     st.write (st.Str "No citations found")])%list) ∧
  ¬ st.blank (st.Str "No authors found") ∧
  ¬ st.blank (st.Str "No organizations found") ∧
  ¬ st.blank (st.Str "No citations found").
Proof.
  intros Hpages r shown.
  destruct (main_screen nlp pdf fitz_pages Network from_nx generate_html
              mkstemp uploaded_file pages w Hpages) as (tail & Hshown & Htail).
  fold r in Hshown. fold shown in Hshown.
  match type of Hshown with
  | _ = (_ ++ ?l ++ tail)%list => set (L := l) in *
  end.
  assert (∀ i, column_calls i shown =
               (column_calls i (screen w) ++ column_calls i L)%list) as Hcol.
  { intros i. rewrite Hshown, !column_calls_app.
    by rewrite (column_calls_page i tail Htail), app_nil_r. }
  split; [|split; [|split]].
  - intros Hnone. rewrite Hcol. unfold L. rewrite Hnone. reflexivity.
  - intros Hnone. rewrite Hcol. unfold L. rewrite Hnone. reflexivity.
  - intros Hnone. rewrite Hcol. unfold L. rewrite Hnone. reflexivity.
  - unfold st.blank. by repeat split.
Qed.

Lemma none_found_indicator_witness :
  let nlp := λ _ : string, [spacy.mkSpan "Acme Corp" "ORG"] in
  let fitz_pages := λ _ : unit, inr ["Acme Corp"] : exn + list string in
  let from_nx := λ G : nx.Graph, inr G : exn + nx.Graph in
  let generate_html := λ _ : nx.Graph, inr "<html></html>" : exn + string in
  let mkstemp := λ (suffix : string) (_ : gmap string string),
                   "/tmp/tmpk3x9" +:+ suffix in
  let w := {| files := ∅; trace := []; screen := [] |} in
  let shown := screen (main nlp unit fitz_pages nx.Graph from_nx generate_html
                            mkstemp (Some ()) w).1 in
  column_calls 1 shown = [st.write (st.Str "### Authors");
                          st.write (st.Str "No authors found")] ∧
  column_calls 3 shown = [st.write (st.Str "### Citations");
                          st.write (st.Str "No citations found")].
Proof.
  intros nlp fitz_pages from_nx generate_html mkstemp w.
  destruct (none_found_indicator nlp unit fitz_pages nx.Graph from_nx
              generate_html mkstemp () ["Acme Corp"] w eq_refl)
    as (Hauthors & _ & Hcitations & _).
  split.
  - apply Hauthors. by vm_compute.
  - apply Hcitations. by vm_compute.
Defined.

(** ** The temporary file *)




(** * Further properties *)

(** ** The graph: nodes, attributes, adjacency *)

Section graph_more.
Import nx.
Implicit Types (A O C : gset string) (n u v : string).

Lemma neighbors_spec A O C n :
  neighbors (create_knowledge_graph A O C) n =
  (if decide (n ∈ A) then O ∪ C else ∅) ∪
  (if decide (n ∈ O ∪ C) then A else ∅).
Proof.
  destruct (create_knowledge_graph_spec A O C) as (_ & _ & Hedge).
  apply set_eq. intros v. rewrite has_edge_neighbors, Hedge.
  repeat case_decide; set_solver.
Qed.

Lemma sum_list_perm (l1 l2 : list nat) :
  l1 ≡ₚ l2 → sum_list l1 = sum_list l2.
Proof. induction 1; simpl; lia. Qed.

Lemma sum_list_app' (l1 l2 : list nat) :
  sum_list (l1 ++ l2) = sum_list l1 + sum_list l2.
Proof. induction l1 as [|x l1 IH]; simpl; lia. Qed.

Lemma sum_list_const {X} (f : X → nat) (k : nat) (l : list X) :
  (∀ x, x ∈ l → f x = k) → sum_list (f <$> l) = length l * k.
Proof.
  induction l as [|x l IH]; intros Hf; [done|].
  rewrite fmap_cons; cbn [sum_list length].
  rewrite Hf by apply list_elem_of_here.
  rewrite IH; [simpl; lia|]. intros y Hy. by apply Hf, list_elem_of_further.
Qed.

Lemma degree_author A O C n :
  A ## O ∪ C → n ∈ A →
  degree (create_knowledge_graph A O C) n = size (O ∪ C).
Proof.
  intros Hdisj Hn. unfold degree. rewrite neighbors_spec.
  rewrite decide_True by done.
  rewrite (decide_False (P := n ∈ O ∪ C)) by (intros Hn'; by apply (Hdisj n)).
  rewrite (right_id_L ∅ (∪)).
  rewrite decide_False by (intros Hn'; by apply (Hdisj n)). lia.
Qed.

Lemma degree_other A O C n :
  A ## O ∪ C → n ∈ O ∪ C →
  degree (create_knowledge_graph A O C) n = size A.
Proof.
  intros Hdisj Hn. unfold degree. rewrite neighbors_spec.
  rewrite (decide_False (P := n ∈ A)) by (intros Hn'; by apply (Hdisj n)).
  rewrite decide_True by done.
  rewrite (left_id_L ∅ (∪)).
  rewrite decide_False by (intros Hn'; by apply (Hdisj n)). lia.
Qed.

End graph_more.

(** X1.  The nodes of the graph are exactly the strings of the three sets:
    [add_edge] never has to create a node, and no string is lost. *)
Theorem graph_nodes_are_entities (A O C : gset string) (n : string) :
  nx.has_node (create_knowledge_graph A O C) n ↔ n ∈ A ∪ O ∪ C.
Proof.
  unfold nx.has_node. rewrite <- elem_of_dom.
  by rewrite create_knowledge_graph_dom.
Qed.

(** X2.  The label of a node is decided by the last loop that reached it:
    "Citation" for a string of the citations set, else "Organization" for a
    string of the organizations set, else "Author"; a string in none of the
    sets has no label. *)
Theorem node_label_precedence (A O C : gset string) (n : string) :
  nx.node_attr (create_knowledge_graph A O C) n "label" =
  if decide (n ∈ C) then Some "Citation"
  else if decide (n ∈ O) then Some "Organization"
  else if decide (n ∈ A) then Some "Author"
  else None.
Proof. apply create_knowledge_graph_label. Qed.

(** X3.  A node carries exactly the two attributes label and color, and the
    color goes with the label: blue for "Author", red for "Organization",
    green for "Citation".  Relabelling a node never leaves the color of its
    former label behind. *)
Theorem node_color_matches_label (A O C : gset string) (n : string) :
  nx.has_node (create_knowledge_graph A O C) n →
  ∃ attr, nx._node (create_knowledge_graph A O C) !! n = Some attr ∧
          dom attr = {["label"; "color"]} ∧
          (attr !! "label", attr !! "color") ∈
          [(Some "Author", Some "blue");
           (Some "Organization", Some "red");
           (Some "Citation", Some "green")].
Proof.
  intros Hn. apply elem_of_dom in Hn.
  rewrite create_knowledge_graph_dom in Hn.
  destruct (create_knowledge_graph_spec A O C) as (_ & Hnode & _).
  rewrite Hnode.
  assert (∀ l c, dom (node_attrs l c) = ({["label"; "color"]} : gset string))
    as Hdom.
  { intros l c. unfold node_attrs. rewrite !dom_insert_L, dom_empty_L.
    set_solver. }
  repeat case_decide; [| | |set_solver]; eexists; (split; [done|]);
    (split; [apply Hdom|]); unfold node_attrs;
    rewrite lookup_insert_eq, lookup_insert_ne, lookup_insert_eq by done;
    set_solver.
Qed.

Lemma node_color_matches_label_witness :
  ∃ attr,
    nx._node (create_knowledge_graph {["Stanford"]} {["Stanford"]} ∅)
      !! "Stanford" = Some attr ∧
    dom attr = {["label"; "color"]} ∧
    (attr !! "label", attr !! "color") ∈
    [(Some "Author", Some "blue");
     (Some "Organization", Some "red");
     (Some "Citation", Some "green")].
Proof.
  apply (node_color_matches_label {["Stanford"]} {["Stanford"]} ∅ "Stanford").
  vm_compute. eauto.
Defined.

(** X4.  The graph is undirected: an edge from [u] to [v] is an edge from
    [v] to [u]. *)
Theorem edges_symmetric (A O C : gset string) (u v : string) :
  nx.has_edge (create_knowledge_graph A O C) u v ↔
  nx.has_edge (create_knowledge_graph A O C) v u.
Proof.
  destruct (create_knowledge_graph_spec A O C) as (_ & _ & Hedge).
  rewrite !Hedge. tauto.
Qed.

(** X5.  A node has a self-loop exactly when its string is in the authors
    set and also in the organizations or the citations set. *)
Theorem self_loop_iff (A O C : gset string) (s : string) :
  nx.has_edge (create_knowledge_graph A O C) s s ↔ s ∈ A ∩ (O ∪ C).
Proof.
  destruct (create_knowledge_graph_spec A O C) as (_ & _ & Hedge).
  rewrite Hedge, elem_of_intersection. tauto.
Qed.


(** X7.  With authors only (no organization, no citation) the graph has no
    edge: every author is a node labelled "Author" with no neighbour. *)
Theorem authors_only_no_edges (A : gset string) :
  let G := create_knowledge_graph A ∅ ∅ in
  (∀ u v, ¬ nx.has_edge G u v) ∧
  nx.number_of_edges G = 0 ∧
  nx.number_of_nodes G = size A ∧
  (∀ a, a ∈ A →
        nx.node_attr G a "label" = Some "Author" ∧ nx.degree G a = 0).
Proof.
  intros G.
  assert (∀ n, nx.neighbors G n = ∅) as Hnb.
  { intros n. unfold G. rewrite neighbors_spec.
    rewrite (decide_False (P := n ∈ ∅ ∪ ∅)) by set_solver.
    case_decide; set_solver. }
  assert (∀ n, nx.degree G n = 0) as Hdeg.
  { intros n. unfold nx.degree. rewrite Hnb, size_empty.
    by rewrite decide_False by set_solver. }
  split; [|split; [|split]].
  - intros u v Huv. apply has_edge_neighbors in Huv. rewrite Hnb in Huv.
    set_solver.
  - unfold nx.number_of_edges. rewrite sum_list_zero; [done|]. auto.
  - unfold nx.number_of_nodes, G.
    rewrite <- size_dom, create_knowledge_graph_dom.
    by rewrite !(right_id_L ∅ (∪)).
  - intros a Ha. split; [|done]. unfold G.
    rewrite create_knowledge_graph_label.
    rewrite !(decide_False (P := a ∈ ∅)) by set_solver.
    by rewrite decide_True.
Qed.

(** X8.  When no author string is also an organization or a citation, every
    author has as many edges as there are organizations and citations, every
    organization and citation as many as there are authors, and the graph
    has one edge per pair: the number of authors times the number of distinct
    organizations and citations. *)
Theorem edge_count_disjoint (A O C : gset string) :
  A ## O ∪ C →
  let G := create_knowledge_graph A O C in
  (∀ a, a ∈ A → nx.degree G a = size (O ∪ C)) ∧
  (∀ x, x ∈ O ∪ C → nx.degree G x = size A) ∧
  nx.number_of_edges G = size A * size (O ∪ C).
Proof.
  intros Hdisj G. split; [|split].
  - intros a Ha. by apply degree_author.
  - intros x Hx. by apply degree_other.
  - unfold nx.number_of_edges, G. rewrite create_knowledge_graph_dom.
    rewrite <- (assoc_L (∪)).
    rewrite (sum_list_perm _ (nx.degree (create_knowledge_graph A O C) <$>
                                (elements A ++ elements (O ∪ C))%list)).
    2: { apply fmap_Permutation. by apply elements_disj_union. }
    rewrite fmap_app, sum_list_app'.
    rewrite (sum_list_const _ (size (O ∪ C)) (elements A)).
    2: { intros a Ha. apply degree_author; [done|].
         by apply elem_of_elements. }
    rewrite (sum_list_const _ (size A) (elements (O ∪ C))).
    2: { intros x Hx. apply degree_other; [done|].
         by apply elem_of_elements. }
    assert (∀ X : gset string, length (elements X) = size X) as Hlen by done.
    rewrite !Hlen.
    replace (size A * size (O ∪ C) + size (O ∪ C) * size A)
      with (size A * size (O ∪ C) * 2) by lia.
    by apply Nat.div_mul.
Qed.

Lemma edge_count_disjoint_witness :
  let A : gset string := {["Jane Doe"; "John Roe"]} in
  let O : gset string := {["Acme Corp"]} in
  let C : gset string := {["Principia Mathematica"; "Acme Corp"]} in
  nx.number_of_edges (create_knowledge_graph A O C) = size A * size (O ∪ C).
Proof.
  intros A O C. apply (edge_count_disjoint A O C).
  apply elem_of_disjoint. intros x Hx Hx'.
  apply elem_of_union in Hx as [Hx|Hx]; apply elem_of_singleton in Hx;
    subst x;
    repeat (apply elem_of_union in Hx' as [Hx'|Hx']);
    apply elem_of_singleton in Hx'; discriminate.
Defined.

(** ** The graph: edge data and the order of enumeration *)

Section graph_data.
Import nx.
Implicit Types (G : Graph) (n u v x y : string) (attr : attrs).

Lemma add_edge_edge_data x y G u v :
  wf G →
  get_edge_data (add_edge x y G) u v =
  if decide ((u = x ∧ v = y) ∨ (u = y ∧ v = x))
  then Some (default ∅ (get_edge_data G x y))
  else get_edge_data G u v.
Proof.
  intros Hwf. unfold add_edge.
  set (G2 := touch y (touch x G)).
  assert (wf G2) as Hwf2 by (apply touch_wf, touch_wf, Hwf).
  assert (is_Some (_adj G2 !! x)) as [ax Hax].
  { apply wf_adj_Some; [done|]. apply touch_mono, touch_has_node. }
  assert (is_Some (_adj G2 !! y)) as [ay Hay].
  { apply wf_adj_Some; [done|]. apply touch_has_node. }
  assert (∀ a b, get_edge_data G a b = get_edge_data G2 a b) as HG2.
  { intros a b. unfold G2.
    rewrite touch_edge_data by (by apply touch_wf).
    by rewrite touch_edge_data. }
  rewrite !HG2.
  set (d := default ∅ (get_edge_data G2 x y)).
  unfold get_edge_data; simpl. rewrite !lookup_alter.
  destruct (decide (y = u)) as [->|Hyu], (decide (x = u)) as [->|Hxu];
    rewrite ?Hax, ?Hay; simpl.
  4: { rewrite decide_False; [done|]. naive_solver. }
  all: rewrite !lookup_insert; repeat case_decide; subst; naive_solver.
Qed.

(** No edge carries data: the property the loops keep. *)
Local Abbreviation plain G :=
  (wf G ∧ ∀ u v d, get_edge_data G u v = Some d → d = ∅).

Lemma plain_empty : plain empty.
Proof.
  split; [apply wf_empty|]. intros u v d.
  unfold get_edge_data, empty; simpl. by rewrite lookup_empty.
Qed.

Lemma plain_add_node n attr G : plain G → plain (add_node n attr G).
Proof.
  intros [Hwf Hd]. split; [by apply add_node_wf|]. intros u v d.
  rewrite add_node_edge_data by done. apply Hd.
Qed.

Lemma plain_add_edge x y G : plain G → plain (add_edge x y G).
Proof.
  intros [Hwf Hd]. split; [by apply add_edge_wf|]. intros u v d.
  rewrite add_edge_edge_data by done. case_decide; [|apply Hd].
  intros [= <-]. destruct (get_edge_data G x y) as [d|] eqn:Hxy; [|done].
  simpl. by apply (Hd x y).
Qed.

Lemma plain_foldl (f : Graph → string → Graph) (l : list string) G :
  (∀ G x, plain G → plain (f G x)) → plain G → plain (foldl f G l).
Proof.
  intros Hf. revert G. induction l as [|x l IH]; intros G HG; [done|].
  cbn [foldl]. by apply IH, Hf.
Qed.

Lemma create_knowledge_graph_in_plain (la lo lc : list string) :
  plain (create_knowledge_graph_in la lo lc).
Proof.
  unfold create_knowledge_graph_in; cbv zeta.
  apply plain_foldl.
  { intros G x HG. apply plain_foldl; [|by apply plain_add_node].
    intros G' a HG'. by apply plain_add_edge. }
  apply plain_foldl.
  { intros G x HG. apply plain_foldl; [|by apply plain_add_node].
    intros G' a HG'. by apply plain_add_edge. }
  apply plain_foldl; [|apply plain_empty].
  intros G x HG. by apply plain_add_node.
Qed.

(** Two graphs with the same nodes and the same edge data are equal. *)
Lemma graph_eq G G' :
  wf G → wf G' → _node G = _node G' →
  (∀ u v, get_edge_data G u v = get_edge_data G' u v) → G = G'.
Proof.
  destruct G as [nd adj], G' as [nd' adj']. unfold wf, get_edge_data; simpl.
  intros Hwf Hwf' -> Hdata. f_equal. apply map_eq. intros n.
  destruct (adj !! n) as [m|] eqn:Hn, (adj' !! n) as [m'|] eqn:Hn'.
  - f_equal. apply map_eq. intros v. specialize (Hdata n v).
    by rewrite Hn, Hn' in Hdata.
  - apply elem_of_dom_2 in Hn. apply not_elem_of_dom in Hn'.
    rewrite <- Hwf, Hwf' in Hn. done.
  - apply elem_of_dom_2 in Hn'. apply not_elem_of_dom in Hn.
    rewrite <- Hwf', Hwf in Hn'. done.
  - done.
Qed.

End graph_data.

(** X9.  No edge of the graph carries data: the data dict of every edge is
    empty, and it is there exactly for the pairs of an author with an
    organization or a citation. *)
Theorem edges_carry_no_data (A O C : gset string) (u v : string) :
  nx.get_edge_data (create_knowledge_graph A O C) u v =
  if decide ((u ∈ A ∧ v ∈ O ∪ C) ∨ (u ∈ O ∪ C ∧ v ∈ A)) then Some ∅
  else None.
Proof.
  destruct (create_knowledge_graph_spec A O C) as (_ & _ & Hedge).
  destruct (create_knowledge_graph_in_plain
              (elements A) (elements O) (elements C)) as [_ Hplain].
  fold (create_knowledge_graph A O C) in Hplain.
  specialize (Hedge u v). specialize (Hplain u v).
  unfold nx.has_edge in Hedge.
  destruct (nx.get_edge_data (create_knowledge_graph A O C) u v) as [d|].
  - rewrite decide_True by (apply Hedge; eauto). f_equal. by apply Hplain.
  - rewrite decide_False; [done|]. intros H. apply Hedge in H.
    by destruct H.
Qed.

(** X10.  The graph does not depend on the order in which Python enumerates
    the three sets: run over any enumeration of each set, the loops build
    the same graph, nodes, attributes, adjacency and edge data alike. *)
Theorem create_knowledge_graph_any_order (A O C : gset string)
    (la lo lc : list string) :
  la ≡ₚ elements A → lo ≡ₚ elements O → lc ≡ₚ elements C →
  create_knowledge_graph_in la lo lc = create_knowledge_graph A O C.
Proof.
  intros Ha Ho Hc.
  destruct (create_knowledge_graph_order A O C la lo lc Ha Ho Hc)
    as [Hnode Hedge].
  destruct (create_knowledge_graph_in_plain la lo lc) as [Hwf Hplain].
  destruct (create_knowledge_graph_in_plain
              (elements A) (elements O) (elements C)) as [Hwf' Hplain'].
  fold (create_knowledge_graph A O C) in Hwf', Hplain'.
  apply graph_eq; [done..|]. intros u v.
  specialize (Hedge u v). unfold nx.has_edge in Hedge.
  specialize (Hplain u v). specialize (Hplain' u v).
  destruct (nx.get_edge_data (create_knowledge_graph_in la lo lc) u v)
    as [d|],
    (nx.get_edge_data (create_knowledge_graph A O C) u v) as [d'|].
  - by rewrite (Hplain d), (Hplain' d').
  - destruct (proj1 Hedge) as [? [=]]. eauto.
  - destruct (proj2 Hedge) as [? [=]]. eauto.
  - done.
Qed.

Lemma create_knowledge_graph_any_order_witness :
  create_knowledge_graph_in
    (reverse (elements ({["Jane Doe"; "John Roe"]} : gset string)))
    (elements ({["Acme Corp"]} : gset string))
    (elements (∅ : gset string))
  = create_knowledge_graph {["Jane Doe"; "John Roe"]} {["Acme Corp"]} ∅.
Proof.
  apply create_knowledge_graph_any_order; [|done..].
  apply reverse_Permutation.
Defined.

(** ** Entity extraction: what the three sets depend on *)

Section entity_more.
Import spacy.
Implicit Types (t : string) (ents : list Span)
               (authors organizations citations : gset string).

Lemma triple_eq (x y : gset string * gset string * gset string) :
  x.1.1 = y.1.1 → x.1.2 = y.1.2 → x.2 = y.2 → x = y.
Proof. destruct x as [[??]?], y as [[??]?]; simpl. by intros -> -> ->. Qed.

Lemma size_add_le (t : string) (X : gset string) :
  (size ({[t]} ∪ X) ≤ S (size X))%nat.
Proof.
  rewrite size_union_alt, size_singleton.
  apply le_n_S, subseteq_size. set_solver.
Qed.

Local Abbreviation bucket :=
  (λ '(authors, organizations, citations) ent,
     if decide (label_ ent = "PERSON") then
       ({[text ent]} ∪ authors, organizations, citations)
     else if decide (label_ ent = "ORG") then
       (authors, {[text ent]} ∪ organizations, citations)
     else if decide (label_ ent ∈ ["WORK_OF_ART"; "MISC"]) then
       (authors, organizations, {[text ent]} ∪ citations)
     else (authors, organizations, citations)).

Lemma bucket_size ents authors organizations citations :
  let r := foldl bucket (authors, organizations, citations) ents in
  (size r.1.1 + size r.1.2 + size r.2 ≤
   size authors + size organizations + size citations + length ents)%nat.
Proof.
  revert authors organizations citations.
  induction ents as [|ent ents IH]; intros a o c; cbv zeta; cbn [foldl].
  - simpl. lia.
  - cbn beta iota. cbn [length].
    destruct (decide (label_ ent = "PERSON")) as [Hp|Hp].
    { specialize (IH ({[text ent]} ∪ a) o c). cbv zeta in IH.
      pose proof (size_add_le (text ent) a). lia. }
    destruct (decide (label_ ent = "ORG")) as [Ho|Ho].
    { specialize (IH a ({[text ent]} ∪ o) c). cbv zeta in IH.
      pose proof (size_add_le (text ent) o). lia. }
    destruct (decide (label_ ent ∈ ["WORK_OF_ART"; "MISC"])) as [Hc|Hc].
    { specialize (IH a o ({[text ent]} ∪ c)). cbv zeta in IH.
      pose proof (size_add_le (text ent) c). lia. }
    specialize (IH a o c). cbv zeta in IH. lia.
Qed.

End entity_more.

(** X11.  The three sets depend only on which (text, label) pairs the
    recogniser reports: two runs that report the same spans, in any order and
    any number of times, return the same sets. *)
Theorem extract_entities_same_spans
    (nlp1 nlp2 : string → list spacy.Span) (txt1 txt2 : string) :
  (∀ ent, ent ∈ nlp1 txt1 ↔ ent ∈ nlp2 txt2) →
  extract_entities nlp1 txt1 = extract_entities nlp2 txt2.
Proof.
  intros Hsame. apply triple_eq; apply set_eq; intros t.
  - by rewrite !extract_entities_authors, Hsame.
  - by rewrite !extract_entities_organizations, Hsame.
  - by rewrite !extract_entities_citations, !Hsame.
Qed.

Lemma extract_entities_same_spans_witness :
  extract_entities
    (λ _, [spacy.mkSpan "Jane Doe" "PERSON"; spacy.mkSpan "Acme Corp" "ORG";
           spacy.mkSpan "Jane Doe" "PERSON"]) "Jane Doe (Acme Corp), Jane Doe"
  = extract_entities
      (λ _, [spacy.mkSpan "Acme Corp" "ORG"; spacy.mkSpan "Jane Doe" "PERSON"])
      "Acme Corp: Jane Doe".
Proof.
  apply extract_entities_same_spans. intros ent.
  rewrite !elem_of_cons, !elem_of_nil. tauto.
Defined.

(** X12.  The sets of a text whose spans are those of two parts, one after
    the other, are the unions of the sets of the parts. *)
Theorem extract_entities_app
    (nlp nlp1 nlp2 : string → list spacy.Span) (txt txt1 txt2 : string) :
  nlp txt = (nlp1 txt1 ++ nlp2 txt2)%list →
  let r := extract_entities nlp txt in
  let r1 := extract_entities nlp1 txt1 in
  let r2 := extract_entities nlp2 txt2 in
  r.1.1 = r1.1.1 ∪ r2.1.1 ∧ r.1.2 = r1.1.2 ∪ r2.1.2 ∧ r.2 = r1.2 ∪ r2.2.
Proof.
  intros Happ r r1 r2. unfold r, r1, r2.
  split; [|split]; apply set_eq; intros t; rewrite elem_of_union.
  - rewrite !extract_entities_authors, Happ. apply elem_of_app.
  - rewrite !extract_entities_organizations, Happ. apply elem_of_app.
  - rewrite !extract_entities_citations, Happ, !elem_of_app. tauto.
Qed.

Lemma extract_entities_app_witness :
  let nlp1 := λ _ : string, [spacy.mkSpan "Jane Doe" "PERSON"] in
  let nlp2 := λ _ : string, [spacy.mkSpan "Acme Corp" "ORG"] in
  let nlp := λ _ : string, [spacy.mkSpan "Jane Doe" "PERSON";
                            spacy.mkSpan "Acme Corp" "ORG"] in
  let r := extract_entities nlp "Jane Doe. Acme Corp." in
  let r1 := extract_entities nlp1 "Jane Doe." in
  let r2 := extract_entities nlp2 "Acme Corp." in
  r.1.1 = r1.1.1 ∪ r2.1.1 ∧ r.1.2 = r1.1.2 ∪ r2.1.2 ∧ r.2 = r1.2 ∪ r2.2.
Proof.
  intros nlp1 nlp2 nlp.
  apply (extract_entities_app nlp nlp1 nlp2 "Jane Doe. Acme Corp."
           "Jane Doe." "Acme Corp.").
  reflexivity.
Defined.

(** X13.  A span is added to at most one set: together the three sets hold
    no more strings than the recogniser reported spans. *)
Theorem extract_entities_size (nlp : string → list spacy.Span)
    (txt : string) :
  let r := extract_entities nlp txt in
  (size r.1.1 + size r.1.2 + size r.2 ≤ length (nlp txt))%nat.
Proof.
  intros r. pose proof (bucket_size (nlp txt) ∅ ∅ ∅) as H.
  cbv zeta in H. rewrite !size_empty in H. exact H.
Qed.

(** X14.  Nothing is found, all three sets are empty, exactly when no span
    of the text is labelled PERSON, ORG, WORK_OF_ART or MISC (in particular
    when the recogniser reports no span at all). *)
Theorem extract_entities_nothing_found (nlp : string → list spacy.Span)
    (txt : string) :
  extract_entities nlp txt = (∅, ∅, ∅) ↔
  ∀ ent, ent ∈ nlp txt →
         spacy.label_ ent ∉ ["PERSON"; "ORG"; "WORK_OF_ART"; "MISC"].
Proof.
  split.
  - intros Hr ent Hent Hlabel.
    assert (spacy.text ent ∈ (extract_entities nlp txt).1.1
            ∪ (extract_entities nlp txt).1.2 ∪ (extract_entities nlp txt).2)
      as Hin.
    { rewrite !elem_of_union.
      rewrite extract_entities_authors, extract_entities_organizations,
        extract_entities_citations.
      rewrite (span_eta ent) in Hent.
      rewrite !elem_of_cons, elem_of_nil in Hlabel.
      destruct Hlabel as [Hl|[Hl|[Hl|[Hl|[]]]]]; rewrite Hl in Hent; tauto. }
    rewrite Hr in Hin. simpl in Hin. set_solver.
  - intros Hnone.
    apply triple_eq; simpl; apply set_eq; intros t;
      rewrite ?extract_entities_authors, ?extract_entities_organizations,
        ?extract_entities_citations, elem_of_empty;
      (split; [|done]).
    + intros H. apply (Hnone _ H). simpl. set_solver.
    + intros H. apply (Hnone _ H). simpl. set_solver.
    + intros [H|H]; apply (Hnone _ H); simpl; set_solver.
Qed.

(** ** From the spans to the graph *)

(** X15.  In the graph built from the sets of a text, the nodes are the
    texts of the spans labelled PERSON, ORG, WORK_OF_ART or MISC, and two
    texts are joined exactly when one is the text of a PERSON span and the
    other the text of an ORG, WORK_OF_ART or MISC span. *)
Theorem entity_graph (nlp : string → list spacy.Span) (txt : string) :
  let r := extract_entities nlp txt in
  let G := create_knowledge_graph r.1.1 r.1.2 r.2 in
  let person := λ t, spacy.mkSpan t "PERSON" ∈ nlp txt in
  let other := λ t, spacy.mkSpan t "ORG" ∈ nlp txt
                    ∨ spacy.mkSpan t "WORK_OF_ART" ∈ nlp txt
                    ∨ spacy.mkSpan t "MISC" ∈ nlp txt in
  (∀ t, nx.has_node G t ↔ person t ∨ other t) ∧
  (∀ t1 t2, nx.has_edge G t1 t2 ↔
            (person t1 ∧ other t2) ∨ (other t1 ∧ person t2)).
Proof.
  intros r G person other. unfold G, person, other, r. split.
  - intros t. unfold nx.has_node.
    rewrite <- elem_of_dom, create_knowledge_graph_dom, !elem_of_union.
    rewrite extract_entities_authors, extract_entities_organizations,
      extract_entities_citations. tauto.
  - intros t1 t2.
    destruct (create_knowledge_graph_spec (extract_entities nlp txt).1.1
                (extract_entities nlp txt).1.2 (extract_entities nlp txt).2)
      as (_ & _ & Hedge).
    rewrite Hedge, !elem_of_union.
    rewrite !extract_entities_authors, !extract_entities_organizations,
      !extract_entities_citations. tauto.
Qed.

(** ** The text of the document *)





(** ** The whole run *)

Section run.
Variable nlp : string → list spacy.Span.
Variable pdf : Type.
Variable fitz_pages : pdf → exn + list string.
Variable Network : Type.
Variable from_nx : nx.Graph → exn + Network.
Variable generate_html : Network → exn + string.
Variable mkstemp : string → gmap string string → string.

Local Abbreviation render_graph' :=
  (render_graph Network from_nx generate_html mkstemp).
Local Abbreviation main' :=
  (main nlp pdf fitz_pages Network from_nx generate_html mkstemp).

(** What [main] has drawn when it reaches [render_graph]. *)
Local Abbreviation drawn r :=
  [ (st.page, st.set_page_config "Knowledge Graph from PDFs" "wide");
    (st.page, st.title "📄 Technical Paper Knowledge Graph");
    (st.page, st.write (st.Str "Upload a technical paper in PDF format, and we will extract key entities and visualize their relationships."));
    (st.page, st.file_uploader "Upload PDF" ["pdf"]);
    (st.page, st.spinner "Extracting text from PDF...");
    (st.page, st.subheader "Extracted Entities");
    (st.page, st.columns 3);
    (st.column 1, st.write (st.Str "### Authors"));
    (st.column 1, st.write (or_else r.1.1 "No authors found"));
    (st.column 2, st.write (st.Str "### Organizations"));
    (st.column 2, st.write (or_else r.1.2 "No organizations found"));
    (st.column 3, st.write (st.Str "### Citations"));
    (st.column 3, st.write (or_else r.2 "No citations found"));
    (st.page, st.subheader "📊 Knowledge Graph") ].

Lemma render_graph_from_nx_raises G w e :
  from_nx G = inl e → render_graph' G w = (w, inl e).
Proof.
  intros Hnet. unfold render_graph, lift, mbind, M_bind. by rewrite Hnet.
Qed.

Lemma render_graph_save_raises G w net e :
  from_nx G = inr net → generate_html net = inl e →
  let name := mkstemp ".html" (files w) in
  render_graph' G w =
  ({| files := <[name := ""]> (files w);
      trace := trace w ++ [sys_create name];
      screen := screen w |}, inl e).
Proof.
  intros Hnet Hcode name.
  unfold render_graph, NamedTemporaryFile, save_graph, get_files, syscall_do,
    lift, mbind, M_bind, mret, M_ret; simpl.
  rewrite Hnet; simpl. by rewrite Hcode.
Qed.

(** [main] up to the call of [render_graph], and what it does with the
    outcome. *)
Lemma main_run uploaded_file pages w :
  fitz_pages uploaded_file = inr pages →
  let r := extract_entities nlp (String.concat newline pages) in
  let G := create_knowledge_graph r.1.1 r.1.2 r.2 in
  let w1 := {| files := files w; trace := trace w;
               screen := screen w ++ drawn r |} in
  main' (Some uploaded_file) w =
  match render_graph' G w1 with
  | (w2, inl e) => (w2, inl e)
  | (w2, inr graph_html) =>
      ({| files := files w2; trace := trace w2;
          screen := screen w2 ++ [(st.page, st.html graph_html 600)] |},
       inr ())
  end.
Proof.
  intros Hpages r G w1. unfold G, w1. clear G w1.
  unfold main, extract_text_from_pdf, st_call, lift, mbind, M_bind, mret,
    M_ret; simpl.
  rewrite Hpages; simpl. fold r.
  destruct r as [[authors organizations] citations]; simpl.
  rewrite <- !(assoc_L (++)). simpl. reflexivity.
Qed.

(** X17.  Without an upload the run draws the page header and the upload
    control and stops there: no text is extracted, nothing is rendered, no
    file is touched, and the run ends normally. *)
Theorem main_without_upload (w : World) :
  main' None w =
  ({| files := files w; trace := trace w;
      screen := screen w ++
        [ (st.page, st.set_page_config "Knowledge Graph from PDFs" "wide");
          (st.page, st.title "📄 Technical Paper Knowledge Graph");
          (st.page, st.write (st.Str "Upload a technical paper in PDF format, and we will extract key entities and visualize their relationships."));
          (st.page, st.file_uploader "Upload PDF" ["pdf"]) ] |}, inr ()).
Proof.
  unfold main, st_call, mbind, M_bind, mret, M_ret; simpl.
  by rewrite <- !(assoc_L (++)).
Qed.

(** X18.  When the PDF cannot be read, the exception of the PDF library
    leaves [main]: after the header, the upload control and the spinner
    nothing more is drawn (no entity list, no graph) and no file is
    touched. *)
Theorem main_pdf_error (uploaded_file : pdf) (e : exn) (w : World) :
  fitz_pages uploaded_file = inl e →
  main' (Some uploaded_file) w =
  ({| files := files w; trace := trace w;
      screen := screen w ++
        [ (st.page, st.set_page_config "Knowledge Graph from PDFs" "wide");
          (st.page, st.title "📄 Technical Paper Knowledge Graph");
          (st.page, st.write (st.Str "Upload a technical paper in PDF format, and we will extract key entities and visualize their relationships."));
          (st.page, st.file_uploader "Upload PDF" ["pdf"]);
          (st.page, st.spinner "Extracting text from PDF...") ] |}, inl e).
Proof.
  intros Hpages.
  unfold main, extract_text_from_pdf, st_call, lift, mbind, M_bind, mret,
    M_ret; simpl.
  rewrite Hpages; simpl. by rewrite <- !(assoc_L (++)).
Qed.

(** X19.  When pyvis raises while the graph is rendered, the exception
    leaves [main], the three entity lists are already on the page and no
    graph is embedded after them. *)
Theorem main_render_error (uploaded_file : pdf) (pages : list string)
    (w : World) (e : exn) :
  fitz_pages uploaded_file = inr pages →
  let r := extract_entities nlp (String.concat newline pages) in
  let G := create_knowledge_graph r.1.1 r.1.2 r.2 in
  from_nx G = inl e
  ∨ (∃ net, from_nx G = inr net ∧ generate_html net = inl e) →
  let out := main' (Some uploaded_file) w in
  out.2 = inl e ∧ screen out.1 = (screen w ++ drawn r)%list.
Proof.
  intros Hpages r G Hraise out. unfold out.
  rewrite (main_run uploaded_file pages w Hpages). fold r. fold G.
  destruct Hraise as [Hnet|(net & Hnet & Hcode)].
  - by rewrite (render_graph_from_nx_raises G _ e Hnet).
  - by rewrite (render_graph_save_raises G _ net e Hnet Hcode).
Qed.


(** X21.  A category whose set is not empty shows, under its heading, the
    set itself and not the "none found" text. *)
Theorem nonempty_set_shown (uploaded_file : pdf) (pages : list string)
    (w : World) :
  fitz_pages uploaded_file = inr pages →
  let r := extract_entities nlp (String.concat newline pages) in
  let shown := screen (main' (Some uploaded_file) w).1 in
  (r.1.1 ≠ ∅ →
   column_calls 1 shown =
   (column_calls 1 (screen w) ++
    [st.write (st.Str "### Authors"); st.write (st.SetOf r.1.1)])%list) ∧
  (r.1.2 ≠ ∅ →
   column_calls 2 shown =
   (column_calls 2 (screen w) ++
    [st.write (st.Str "### Organizations");
     st.write (st.SetOf r.1.2)])%list) ∧
  (r.2 ≠ ∅ →
   column_calls 3 shown =
   (column_calls 3 (screen w) ++
    [st.write (st.Str "### Citations"); st.write (st.SetOf r.2)])%list).
Proof.
  intros Hpages r shown.
  destruct (main_screen nlp pdf fitz_pages Network from_nx generate_html
              mkstemp uploaded_file pages w Hpages) as (tail & Hshown & Htail).
  fold r in Hshown. fold shown in Hshown.
  assert (∀ i, column_calls i shown =
               (column_calls i (screen w) ++ column_calls i (drawn r))%list)
    as Hcol.
  { intros i. rewrite Hshown, !column_calls_app.
    by rewrite (column_calls_page i tail Htail), app_nil_r. }
  assert (∀ s msg, s ≠ ∅ → or_else s msg = st.SetOf s) as Hset.
  { intros s msg Hs. unfold or_else. by rewrite decide_False. }
  split; [|split]; intros Hsome; rewrite Hcol.
  - by rewrite <- (Hset _ "No authors found" Hsome).
  - by rewrite <- (Hset _ "No organizations found" Hsome).
  - by rewrite <- (Hset _ "No citations found" Hsome).
Qed.


End run.

Lemma main_pdf_error_witness :
  let fitz_pages :=
    λ _ : unit, inl (LibraryError "fitz") : exn + list string in
  let from_nx := λ G : nx.Graph, inr G : exn + nx.Graph in
  let generate_html := λ _ : nx.Graph, inr "<html></html>" : exn + string in
  let mkstemp := λ (suffix : string) (_ : gmap string string),
                   "/tmp/tmpk3x9" +:+ suffix in
  let w := {| files := ∅; trace := []; screen := [] |} in
  let out := main (λ _, []) unit fitz_pages nx.Graph from_nx generate_html
                  mkstemp (Some ()) w in
  out.2 = inl (LibraryError "fitz") ∧ files out.1 = ∅ ∧ trace out.1 = [].
Proof.
  intros fitz_pages from_nx generate_html mkstemp w out. unfold out.
  rewrite (main_pdf_error (λ _, []) unit fitz_pages nx.Graph from_nx
             generate_html mkstemp () (LibraryError "fitz") w eq_refl).
  done.
Defined.

Lemma main_render_error_witness :
  let nlp := λ _ : string, [spacy.mkSpan "Jane Doe" "PERSON";
                            spacy.mkSpan "Acme Corp" "ORG"] in
  let fitz_pages :=
    λ _ : unit, inr ["Jane Doe, Acme Corp"] : exn + list string in
  let from_nx := λ G : nx.Graph, inr G : exn + nx.Graph in
  let generate_html :=
    λ _ : nx.Graph, inl (LibraryError "pyvis") : exn + string in
  let mkstemp := λ (suffix : string) (_ : gmap string string),
                   "/tmp/tmpk3x9" +:+ suffix in
  let w := {| files := ∅; trace := []; screen := [] |} in
  (main nlp unit fitz_pages nx.Graph from_nx generate_html mkstemp
        (Some ()) w).2 = inl (LibraryError "pyvis").
Proof.
  intros nlp fitz_pages from_nx generate_html mkstemp w.
  apply (main_render_error nlp unit fitz_pages nx.Graph from_nx generate_html
           mkstemp () ["Jane Doe, Acme Corp"] w (LibraryError "pyvis")
           eq_refl).
  right. eexists. split; reflexivity.
Defined.


Lemma nonempty_set_shown_witness :
  let nlp := λ _ : string, [spacy.mkSpan "Jane Doe" "PERSON";
                            spacy.mkSpan "Acme Corp" "ORG"] in
  let fitz_pages :=
    λ _ : unit, inr ["Jane Doe, Acme Corp"] : exn + list string in
  let from_nx := λ G : nx.Graph, inr G : exn + nx.Graph in
  let generate_html := λ _ : nx.Graph, inr "<html></html>" : exn + string in
  let mkstemp := λ (suffix : string) (_ : gmap string string),
                   "/tmp/tmpk3x9" +:+ suffix in
  let w := {| files := ∅; trace := []; screen := [] |} in
  let r := extract_entities nlp
             (String.concat newline ["Jane Doe, Acme Corp"]) in
  column_calls 1 (screen (main nlp unit fitz_pages nx.Graph from_nx
                               generate_html mkstemp (Some ()) w).1)
  = [st.write (st.Str "### Authors"); st.write (st.SetOf r.1.1)].
Proof.
  intros nlp fitz_pages from_nx generate_html mkstemp w r.
  apply (nonempty_set_shown nlp unit fitz_pages nx.Graph from_nx
           generate_html mkstemp () ["Jane Doe, Acme Corp"] w eq_refl).
  intros Hempty.
  assert ("Jane Doe" ∈ (extract_entities nlp
            (String.concat newline ["Jane Doe, Acme Corp"])).1.1) as Hin.
  { apply extract_entities_authors. apply list_elem_of_here. }
  rewrite Hempty in Hin. by apply elem_of_empty in Hin.
Defined.
